(** * Container Assistant: the container store, the action executor and the
      conversation controller

    A shallow embedding of [src/types.ts], of [executeAction],
    [handleSendMessage] and [handleCameraScan] of [src/src/App.tsx], and of
    the reply handling of [interpretUserCommand] of
    [src/src/services/geminiService.ts].

    Conventions of the model.
    - A JavaScript string is the [string] of the bytes of its UTF-8 form,
      so an ASCII text is the text as it is written here and a character
      beyond ASCII is two to four bytes.  Equality, concatenation and
      [includes] of well-formed texts are those of the byte sequences; a
      text with half a surrogate pair has no such form and is not
      modelled.  [trim] removes the white space of ECMAScript, by its
      table of code points.  [toLowerCase] is taken from the engine, as
      the class [JS.Runtime]: the case tables of Unicode are not copied
      here, and what is proved holds for every function that folds A-Z
      on ASCII text and is idempotent, as that of the engine is.
    - A JavaScript number is an integer of [Z] (the reply schema declares
      [containerNumber] as an integer, and container ids are only ever made
      by adding one to an id); it is printed in decimal, as JavaScript
      prints the integers it holds exactly.
    - React state: a handler reads the state of the last render and writes
      through state setters.  React renders between two events, so a
      handler sees the state the event before it left; the continuation of
      an [await] keeps the values the handler closed over, and these
      values are kept with the outstanding call.
    - Speech output ([speak], [cancel]) neither reads nor writes the state
      below and does not raise; it is left out, as is the text field
      [userInput]. *)

From Stdlib Require Import ZArith List String Ascii Bool Lia DecimalString.
Import ListNotations.
Open Scope string_scope.
Open Scope Z_scope.

(* ================================================================== *)
(** * JavaScript strings                                               *)
(* ================================================================== *)

Module JS.

(** The one-character strings that cannot be written inside a literal. *)
Definition dquote : string := String (ascii_of_nat 34) EmptyString.
Definition newline : string := String (ascii_of_nat 10) EmptyString.

(** The folding of the letters A-Z, which is what
    [String.prototype.toLowerCase] does to a text of ASCII characters. *)
Definition lowerChar (c : ascii) : ascii :=
  let n := nat_of_ascii c in
  if ((65 <=? n) && (n <=? 90))%nat then ascii_of_nat (n + 32) else c.

Fixpoint asciiLowerCase (s : string) : string :=
  match s with
  | EmptyString => EmptyString
  | String c s' => String (lowerChar c) (asciiLowerCase s')
  end.

Fixpoint isAscii (s : string) : bool :=
  match s with
  | EmptyString => true
  | String c s' => (nat_of_ascii c <? 128)%nat && isAscii s'
  end.

(** What is taken from the JavaScript engine and not computed here:
    [String.prototype.toLowerCase], whose case tables are those of
    Unicode.  Two facts about it are used: on a text of ASCII characters
    it folds the letters A-Z and nothing else, and lowering a lowered
    text changes nothing. *)
Class Runtime : Type := {
  toLowerCase : string -> string;
  toLowerCase_ascii :
    forall s, isAscii s = true -> toLowerCase s = asciiLowerCase s;
  toLowerCase_idempotent :
    forall s, toLowerCase (toLowerCase s) = toLowerCase s }.

(** [s.includes(t)]: [t] occurs in [s] at some position. *)
Fixpoint includes (s t : string) : bool :=
  prefix t s ||
  match s with
  | EmptyString => false
  | String _ s' => includes s' t
  end.

(** [l.join(sep)]. *)
Definition join (sep : string) (l : list string) : string :=
  String.concat sep l.

(** The decimal text of a number inside a template literal. *)
Definition numToString (n : Z) : string :=
  NilEmpty.string_of_int (Z.to_int n).

(** The characters of a text, each as a text: a byte that starts a
    character, with the continuation bytes that follow it.  This is what
    spreading a string gives, [[...s]]. *)
Definition isContinuation (c : ascii) : bool :=
  let n := nat_of_ascii c in ((128 <=? n) && (n <? 192))%nat.

Fixpoint codePoints (s : string) : list string :=
  match s with
  | EmptyString => []
  | String c s' =>
      let rest := codePoints s' in
      match s', rest with
      | String c' _, g :: gs =>
          if isContinuation c' then String c g :: gs
          else String c EmptyString :: rest
      | _, _ => String c EmptyString :: rest
      end
  end.

Definition bytes (l : list N) : string :=
  string_of_list_ascii (map ascii_of_N l).

(** The character with code point [n], as a text. *)
Definition utf8 (n : N) : string :=
  (if n <? 0x80 then bytes [n]
   else if n <? 0x800 then bytes [0xC0 + n / 64; 0x80 + n mod 64]
   else if n <? 0x10000 then
     bytes [0xE0 + n / 4096; 0x80 + (n / 64) mod 64; 0x80 + n mod 64]
   else
     bytes [0xF0 + n / 262144; 0x80 + (n / 4096) mod 64;
            0x80 + (n / 64) mod 64; 0x80 + n mod 64])%N.

(** The code points of the white space and of the line terminators of
    ECMAScript, which are what [String.prototype.trim] removes: TAB, LF,
    VT, FF, CR, the space, the no-break space, the other characters of
    the Unicode category Zs, the line separator, the paragraph separator
    and the byte order mark. *)
Definition whiteSpaceCodePoints : list N :=
  [ 0x09; 0x0A; 0x0B; 0x0C; 0x0D; 0x20; 0xA0; 0x1680;
    0x2000; 0x2001; 0x2002; 0x2003; 0x2004; 0x2005; 0x2006; 0x2007;
    0x2008; 0x2009; 0x200A; 0x2028; 0x2029; 0x202F; 0x205F; 0x3000;
    0xFEFF ]%N.

Definition whiteSpace : list string := map utf8 whiteSpaceCodePoints.

Definition isSpace (c : string) : bool :=
  existsb (String.eqb c) whiteSpace.

Fixpoint dropSpaces (l : list string) : list string :=
  match l with
  | [] => []
  | c :: l' => if isSpace c then dropSpaces l' else l
  end.

(** [String.prototype.trim]: the text without the white space that
    starts it and the white space that ends it. *)
Definition trim (s : string) : string :=
  String.concat EmptyString
    (rev (dropSpaces (rev (dropSpaces (codePoints s))))).

(** Truthiness of a string: only the empty string is falsy. *)
Definition truthy (s : string) : bool :=
  match s with EmptyString => false | _ => true end.

(** [new Set(l)], as the list of its elements in insertion order: an
    element already in the set is not inserted again. *)
Definition setAdd (seen : list string) (x : string) : list string :=
  if existsb (String.eqb x) seen then seen else (seen ++ [x])%list.

Definition newSet (l : list string) : list string :=
  fold_left setAdd l [].

(** [Math.max(x, ...xs)] on a non-empty argument list. *)
Definition Math_max (x : Z) (xs : list Z) : Z := fold_left Z.max xs x.

End JS.

(** An engine to run examples with.  It folds the letters A-Z and the
    capital letters of Latin-1, U+00C0 to U+00DE without the
    multiplication sign U+00D7: these are the byte 0xC3 followed by a byte
    of 0x80 to 0x9E other than 0x97, and their small letters have 0x20
    more in the second byte.  Every other byte is left alone, so on a
    text in these letters it is [String.prototype.toLowerCase]. *)
Definition lowerLatin1 (afterC3 : bool) (c : ascii) : ascii :=
  let n := nat_of_ascii c in
  if afterC3 then
    if ((128 <=? n) && (n <=? 158) && negb (n =? 151))%nat
    then ascii_of_nat (n + 32)
    else c
  else JS.lowerChar c.

Fixpoint latin1LowerCase (afterC3 : bool) (s : string) : string :=
  match s with
  | EmptyString => EmptyString
  | String c s' =>
      String (lowerLatin1 afterC3 c)
             (latin1LowerCase (nat_of_ascii c =? 195)%nat s')
  end.

Definition latin1Runtime : JS.Runtime.
Proof.
  refine {| JS.toLowerCase := latin1LowerCase false |}.
  - induction s as [|c s IH]; cbn [JS.isAscii latin1LowerCase JS.asciiLowerCase];
      [reflexivity|].
    intros H. apply andb_true_iff in H. destruct H as [Hc Hs].
    assert ((nat_of_ascii c =? 195)%nat = false) as ->.
    { apply Nat.ltb_lt in Hc. apply Nat.eqb_neq. lia. }
    now rewrite IH.
  - intros s. generalize false.
    induction s as [|c s IH]; intros b; cbn [latin1LowerCase];
      [reflexivity|].
    assert (lowerLatin1 b (lowerLatin1 b c) = lowerLatin1 b c) as ->.
    { destruct b; destruct c as [[] [] [] [] [] [] [] []]; reflexivity. }
    assert ((nat_of_ascii (lowerLatin1 b c) =? 195)%nat
            = (nat_of_ascii c =? 195)%nat) as ->.
    { destruct b; destruct c as [[] [] [] [] [] [] [] []]; reflexivity. }
    now rewrite IH.
Defined.

(* ================================================================== *)
(** * src/types.ts                                                     *)
(* ================================================================== *)

Module Container.
Record t : Type := mk { id : Z; items : list string }.
End Container.

Inductive Sender : Type := user | ai | system.

Module Message.
Record t : Type := mk
  { id : string; sender : Sender; text : string; isLoading : bool }.
End Message.

(** [enum ActionType]: a string enum, so an action name is a string and
    the seven members are seven string constants. *)
Module ActionType.
Definition UPDATE_ITEMS : string := "UPDATE_ITEMS".
Definition LIST_ITEMS : string := "LIST_ITEMS".
Definition LIST_ALL_CONTAINERS : string := "LIST_ALL_CONTAINERS".
Definition CLEAR_CONTAINER : string := "CLEAR_CONTAINER".
Definition CREATE_CONTAINER : string := "CREATE_CONTAINER".
Definition DELETE_CONTAINER : string := "DELETE_CONTAINER".
Definition UNKNOWN : string := "UNKNOWN".

Definition values : list string :=
  [UPDATE_ITEMS; LIST_ITEMS; LIST_ALL_CONTAINERS; CLEAR_CONTAINER;
   CREATE_CONTAINER; DELETE_CONTAINER; UNKNOWN].
End ActionType.

(** [interface AIAction]; an optional field that is absent is [None]. *)
Module AIAction.
Record t : Type := mk
  { action : string;
    containerNumber : option Z;
    items : option (list string);
    itemsToAdd : option (list string);
    itemsToRemove : option (list string) }.
End AIAction.

(** The object held by [pendingScannedItems]. *)
Module PendingScan.
Record t : Type := mk { containerId : Z; items : list string }.
End PendingScan.

(* ================================================================== *)
(** * src/src/App.tsx: executeAction                                   *)
(* ================================================================== *)

(** [if (action.containerNumber)]: absent and [0] are falsy. *)
Definition truthyNumber (n : option Z) : option Z :=
  match n with
  | Some 0 => None
  | Some z => Some z
  | None => None
  end.

(** [l && l.length > 0]. *)
Definition nonEmpty (l : option (list string)) : bool :=
  match l with
  | Some (_ :: _) => true
  | _ => false
  end.

(** [l || []], and the list behind a guard [l && l.length > 0]. *)
Definition orEmpty (l : option (list string)) : list string :=
  match l with
  | Some l' => l'
  | None => []
  end.

Section WithRuntime.

Context {R : JS.Runtime}.

(** The filter predicate of line 62: the item survives when no removal
    term occurs in it, both taken in lower case. *)
Definition survives (itemsToRemove : list string) (item : string) : bool :=
  negb (existsb
          (fun removeItem =>
             JS.includes (JS.toLowerCase item) (JS.toLowerCase removeItem))
          itemsToRemove).

(** Lines 60-66: the new item list of the container that is updated. *)
Definition updatedItems (old : list string)
    (itemsToAdd itemsToRemove : option (list string)) : list string :=
  let updated := old in
  let updated :=
    if nonEmpty itemsToRemove
    then filter (survives (orEmpty itemsToRemove)) updated
    else updated in
  if nonEmpty itemsToAdd
  then JS.newSet (updated ++ orEmpty itemsToAdd)%list
  else updated.

(** The state updaters handed to [setContainers]. *)
Definition updateItemsIn (n : Z)
    (itemsToAdd itemsToRemove : option (list string))
    (prev : list Container.t) : list Container.t :=
  map (fun c =>
         if Container.id c =? n
         then Container.mk (Container.id c)
                (updatedItems (Container.items c) itemsToAdd itemsToRemove)
         else c) prev.

Definition clearIn (n : Z) (prev : list Container.t) : list Container.t :=
  map (fun c => if Container.id c =? n
                then Container.mk (Container.id c) [] else c) prev.

Definition appendContainer (newContainerId : Z) (its : list string)
    (prev : list Container.t) : list Container.t :=
  (prev ++ [Container.mk newContainerId its])%list.

Definition deleteIn (n : Z) (prev : list Container.t) : list Container.t :=
  filter (fun c => negb (Container.id c =? n)) prev.

(** Line 120. *)
Definition newContainerId (containers : list Container.t) : Z :=
  match map Container.id containers with
  | [] => 1
  | x :: xs => JS.Math_max x xs + 1
  end.

Definition findContainer (n : Z) (containers : list Container.t)
  : option Container.t :=
  find (fun c => Container.id c =? n) containers.

Definition describeContainer (c : Container.t) : string :=
  "Container #" ++ JS.numToString (Container.id c) ++ ": "
  ++ JS.join ", " (Container.items c).

(** What one call of [executeAction] does: the updater it hands to
    [setContainers], when it calls it, and the text it returns. *)
Definition Effect : Type :=
  (option (list Container.t -> list Container.t) * string)%type.

(** [executeAction], lines 48-145.  [containers] is the value closed over
    by the callback; the store itself changes only through the updater. *)
Definition executeAction (containers : list Container.t)
    (action : AIAction.t) : Effect :=
  let aiResponse := "Sorry, I couldn't perform that action." in
  let name := AIAction.action action in
  if (name =? ActionType.UPDATE_ITEMS)%string then
    match truthyNumber (AIAction.containerNumber action) with
    | Some n =>
        match findContainer n containers with
        | Some _ =>
            let itemsToAdd := AIAction.itemsToAdd action in
            let itemsToRemove := AIAction.itemsToRemove action in
            let addedText :=
              if nonEmpty itemsToAdd
              then "added " ++ JS.dquote ++ JS.join ", " (orEmpty itemsToAdd)
                   ++ JS.dquote
              else EmptyString in
            let removedText :=
              if nonEmpty itemsToRemove
              then "removed " ++ JS.dquote
                   ++ JS.join ", " (orEmpty itemsToRemove) ++ JS.dquote
              else EmptyString in
            (Some (updateItemsIn n itemsToAdd itemsToRemove),
             if JS.truthy addedText && JS.truthy removedText then
               "OK, I've " ++ addedText ++ " to and " ++ removedText
               ++ " from container " ++ JS.numToString n ++ "."
             else if JS.truthy addedText then
               "OK, I've " ++ addedText ++ " to container "
               ++ JS.numToString n ++ "."
             else if JS.truthy removedText then
               "OK, I've " ++ removedText ++ " from container "
               ++ JS.numToString n ++ "."
             else
               "OK, no changes were made to container "
               ++ JS.numToString n ++ ".")
        | None =>
            (None,
             "Sorry, I couldn't find container " ++ JS.numToString n ++ ".")
        end
    | None => (None, "Please specify which container to update.")
    end
  else if (name =? ActionType.LIST_ITEMS)%string then
    match truthyNumber (AIAction.containerNumber action) with
    | Some n =>
        match findContainer n containers with
        | Some container =>
            (None,
             "Container " ++ JS.numToString (Container.id container)
             ++ " contains: "
             ++ match Container.items container with
                | _ :: _ => JS.join ", " (Container.items container)
                | [] => "It's empty"
                end
             ++ ".")
        | None =>
            (None,
             "Sorry, I couldn't find container " ++ JS.numToString n ++ ".")
        end
    | None => (None, aiResponse)
    end
  else if (name =? ActionType.LIST_ALL_CONTAINERS)%string then
    match containers with
    | _ :: _ =>
        (None,
         "Here's what's in all your containers:" ++ JS.newline ++ JS.newline
         ++ JS.join JS.newline (map describeContainer containers))
    | [] => (None, "You don't have any containers yet.")
    end
  else if (name =? ActionType.CLEAR_CONTAINER)%string then
    match truthyNumber (AIAction.containerNumber action) with
    | Some n =>
        (Some (clearIn n),
         "Container " ++ JS.numToString n ++ " has been cleared.")
    | None => (None, aiResponse)
    end
  else if (name =? ActionType.CREATE_CONTAINER)%string then
    let newId := newContainerId containers in
    (Some (appendContainer newId (orEmpty (AIAction.items action))),
     "I've created container " ++ JS.numToString newId
     ++ (if nonEmpty (AIAction.items action)
         then " and added " ++ JS.dquote
              ++ JS.join ", " (orEmpty (AIAction.items action)) ++ JS.dquote
         else EmptyString)
     ++ ".")
  else if (name =? ActionType.DELETE_CONTAINER)%string then
    match truthyNumber (AIAction.containerNumber action) with
    | Some n =>
        if existsb (fun c => Container.id c =? n) containers
        then (Some (deleteIn n),
              "OK, I have deleted container #" ++ JS.numToString n ++ ".")
        else (None,
              "Sorry, I couldn't find container #" ++ JS.numToString n
              ++ " to delete.")
    | None => (None, "Please specify which container you'd like to delete.")
    end
  else if (name =? ActionType.UNKNOWN)%string then
    (None, "I'm sorry, I didn't quite understand that. Could you please rephrase?")
  else
    (None, aiResponse).

(** The store after the updater of an effect has been applied. *)
Definition applyEffect (e : Effect) (prev : list Container.t)
  : list Container.t :=
  match fst e with
  | Some updater => updater prev
  | None => prev
  end.

(** One action run against the store it was rendered with. *)
Definition execute (containers : list Container.t) (action : AIAction.t)
  : list Container.t * string :=
  let e := executeAction containers action in
  (applyEffect e containers, snd e).

(* ================================================================== *)
(** * src/src/services/geminiService.ts: interpretUserCommand          *)
(* ================================================================== *)

#[local] Set Warnings "-register-all".

(** A value made by [JSON.parse].  An object lists each of its keys once. *)
Inductive JSON : Type :=
  | JNull
  | JBool (b : bool)
  | JNumber (n : Z)
  | JString (s : string)
  | JArray (l : list JSON)
  | JObject (fields : list (string * JSON)).

(** What the [try] block of [interpretUserCommand] meets after the request
    is sent: either something in it throws (the request fails, the
    response has no text, [JSON.parse] rejects the text), or [JSON.parse]
    returns a value. *)
Inductive Reply : Type :=
  | Failed
  | Parsed (v : JSON).

(** The literal [{ action: ActionType.UNKNOWN }] of line 109. *)
Definition unknownAction : JSON :=
  JObject [("action", JString ActionType.UNKNOWN)].

(** Lines 103-110.  The cast [as AIAction] does nothing at run time: the
    parsed value is returned as it is. *)
Definition interpretUserCommand (reply : Reply) : JSON :=
  match reply with
  | Parsed parsedAction => parsedAction
  | Failed => unknownAction
  end.

(* ================================================================== *)
(** * executeAction on the value that interpretUserCommand returned    *)
(* ================================================================== *)

(** Reading a property; [None] is [undefined]. *)
Fixpoint lookup (k : string) (fields : list (string * JSON)) : option JSON :=
  match fields with
  | [] => None
  | (k', v) :: rest => if (k' =? k)%string then Some v else lookup k rest
  end.

Definition getField (k : string) (v : JSON) : option JSON :=
  match v with
  | JObject fields => lookup k fields
  | _ => None
  end.

(** What a call of [executeAction] on a run-time value comes to. *)
Inductive Outcome : Type :=
  | Returns (e : Effect)
      (** it returns, as [executeAction] does on a value of type AIAction *)
  | Throws (queued : option (list Container.t -> list Container.t))
      (** it raises a TypeError, after handing [queued] to [setContainers] *)
  | OutOfModel.
      (** a field that the action reads holds a value the model does not
          follow: a container number that is not a number, an item list
          that is neither an array of strings nor a string, an updater
          that would itself raise while React applies it *)

(** A field declared [number]: absent or [null], or a number. *)
Definition asNumber (v : option JSON) : option (option Z) :=
  match v with
  | None | Some JNull => Some None
  | Some (JNumber n) => Some (Some n)
  | Some _ => None
  end.

Fixpoint asStrings (l : list JSON) : option (list string) :=
  match l with
  | [] => Some []
  | JString s :: rest => option_map (cons s) (asStrings rest)
  | _ :: _ => None
  end.

(** A field declared [string[]].  Besides the declared shapes the model
    follows one more: a string, which like an array has a [length] and
    can be spread, but has no [join] and no [some]. *)
Inductive ItemsView : Type :=
  | Missing                      (** absent, [null], or the empty string *)
  | Strings (l : list string)    (** an array of strings *)
  | Text (s : string)            (** a string that is not empty *)
  | Unmodelled.

Definition asItems (v : option JSON) : ItemsView :=
  match v with
  | None | Some JNull => Missing
  | Some (JString s) => if JS.truthy s then Text s else Missing
  | Some (JArray l) =>
      match asStrings l with
      | Some l' => Strings l'
      | None => Unmodelled
      end
  | Some _ => Unmodelled
  end.

(** The views that are values of the declared type [string[] | undefined]. *)
Definition declared (i : ItemsView) : option (option (list string)) :=
  match i with
  | Missing => Some None
  | Strings l => Some (Some l)
  | Text _ | Unmodelled => None
  end.

(** [[...s]] for a string: its characters, each as a string. *)
Definition spread (s : string) : list string := JS.codePoints s.

Definition isKnownAction (name : string) : bool :=
  existsb (String.eqb name) ActionType.values.

(** [executeAction] on a run-time value.  The fields are read as the
    source reads them: [action.action] first (a TypeError on [null]),
    then only the fields of the matching case. *)
Definition executeParsed (containers : list Container.t) (v : JSON)
  : Outcome :=
  match v with
  | JNull => Throws None
  | _ =>
    match getField "action" v with
    | Some (JString name) =>
        let typed n its add rem := AIAction.mk name n its add rem in
        if (name =? ActionType.UPDATE_ITEMS)%string then
          match asNumber (getField "containerNumber" v) with
          | None => OutOfModel
          | Some n =>
              (* the item lists are read only once the container is found *)
              let probe := executeAction containers (typed n None None None) in
              match fst probe with
              | None => Returns probe
              | Some _ =>
                  match declared (asItems (getField "itemsToRemove" v)) with
                  | None => OutOfModel
                  | Some rem =>
                      match asItems (getField "itemsToAdd" v) with
                      | Missing =>
                          Returns (executeAction containers
                                     (typed n None None rem))
                      | Strings add =>
                          Returns (executeAction containers
                                     (typed n None (Some add) rem))
                      | Text s =>
                          (* the updater spreads the string into its
                             characters; then [itemsToAdd.join] raises *)
                          Throws (fst (executeAction containers
                                         (typed n None (Some (spread s)) rem)))
                      | Unmodelled => OutOfModel
                      end
                  end
              end
          end
        else if ((name =? ActionType.LIST_ITEMS)
                 || (name =? ActionType.CLEAR_CONTAINER)
                 || (name =? ActionType.DELETE_CONTAINER))%string then
          match asNumber (getField "containerNumber" v) with
          | None => OutOfModel
          | Some n => Returns (executeAction containers (typed n None None None))
          end
        else if (name =? ActionType.CREATE_CONTAINER)%string then
          match declared (asItems (getField "items" v)) with
          | Some its =>
              Returns (executeAction containers (typed None its None None))
          | None => OutOfModel
          end
        else
          (* LIST_ALL_CONTAINERS, UNKNOWN and every other name: no field
             of the action is read *)
          Returns (executeAction containers (typed None None None None))
    | _ =>
        (* no case of the switch matches a value that is not a string *)
        Returns (None, "Sorry, I couldn't perform that action.")
    end
  end.

(* ================================================================== *)
(** * src/src/App.tsx: the conversation controller                     *)
(* ================================================================== *)

(** A request that has been sent and has not settled yet, with the values
    its continuation closed over when the handler was called. *)
Inductive Call : Type :=
  | Interpreting (containers : list Container.t)
                 (pendingScannedItems : option PendingScan.t)
  | Scanning (containerId : Z).

(** The state of the component [App]. *)
Record AppState : Type := mkApp
  { containers : list Container.t;
    messages : list Message.t;
    isProcessing : bool;
    isCameraOpen : bool;
    pendingScannedItems : option PendingScan.t;
    outstanding : list Call }.

Definition seedContainers : list Container.t :=
  [ Container.mk 1 ["Christmas Decorations"; "Wreaths"; "Tree Stand"];
    Container.mk 2 ["Camping Gear"; "Tent"; "Sleeping Bags"] ].

Definition welcomeMessage : Message.t :=
  Message.mk "welcome" ai
    "Welcome to your Container Assistant! How can I help you today? You can say things like 'What's in container 1?' or 'Add winter clothes to a new container'."
    false.

(** The state once the component is mounted. *)
Definition initialState : AppState :=
  mkApp seedContainers [welcomeMessage] false false None [].

(** [prev.slice(0, -1)] followed by one message. *)
Definition replaceLast (prev : list Message.t) (m : Message.t)
  : list Message.t :=
  (removelast prev ++ [m])%list.

(** [handleSendMessage], lines 147-155: up to the [await].  [now] is the
    value of [Date.now()]. *)
Definition handleSendMessage (st : AppState) (messageText : string) (now : Z)
  : AppState :=
  if negb (JS.truthy (JS.trim messageText)) || isProcessing st then st
  else
    let userMessage :=
      Message.mk (JS.numToString now) user messageText false in
    let thinkingMessage :=
      Message.mk (JS.numToString (now + 1)) ai "..." true in
    mkApp (containers st)
          (messages st ++ [userMessage; thinkingMessage])%list
          true
          (isCameraOpen st)
          (pendingScannedItems st)
          (outstanding st ++ [Interpreting (containers st)
                                (pendingScannedItems st)])%list.

(** Lines 164-166 and 176-178: [if (pendingScannedItems)
    setPendingScannedItems(null)], on the value closed over. *)
Definition clearPending (closedOver current : option PendingScan.t)
  : option PendingScan.t :=
  match closedOver with
  | Some _ => None
  | None => current
  end.

Definition applyQueued
    (queued : option (list Container.t -> list Container.t))
    (prev : list Container.t) : list Container.t :=
  match queued with
  | Some updater => updater prev
  | None => prev
  end.

(** [handleSendMessage], lines 157-186: from the [await] on.  [st] is the
    state without the call that settles; [closedContainers] and
    [closedPending] are the values the handler closed over. *)
Definition resumeSendMessage (st : AppState)
    (closedContainers : list Container.t)
    (closedPending : option PendingScan.t)
    (reply : Reply) (now : Z) : option AppState :=
  let action := interpretUserCommand reply in
  match executeParsed closedContainers action with
  | Returns (queued, aiResponseText) =>
      let aiResponseMessage :=
        Message.mk (JS.numToString (now + 2)) ai aiResponseText false in
      Some (mkApp (applyQueued queued (containers st))
                  (replaceLast (messages st) aiResponseMessage)
                  false
                  (isCameraOpen st)
                  (clearPending closedPending (pendingScannedItems st))
                  (outstanding st))
  | Throws queued =>
      let errorMessage :=
        Message.mk (JS.numToString (now + 2)) system
          "An error occurred. Please try again." false in
      Some (mkApp (applyQueued queued (containers st))
                  (replaceLast (messages st) errorMessage)
                  false
                  (isCameraOpen st)
                  (clearPending closedPending (pendingScannedItems st))
                  (outstanding st))
  | OutOfModel => None
  end.

(** [handleCameraScan], lines 189-194: up to the [await]. *)
Definition handleCameraScan (st : AppState) (containerId : Z) (now : Z)
  : AppState :=
  let thinkingMessage :=
    Message.mk (JS.numToString (now + 1)) system
      ("Scanning container #" ++ JS.numToString containerId ++ "...") true in
  mkApp (containers st)
        (messages st ++ [thinkingMessage])%list
        true
        false
        (pendingScannedItems st)
        (outstanding st ++ [Scanning containerId])%list.

(** [handleCameraScan], lines 196-218: from the [await] on; [items] is
    what [analyzeImageOfBinContents] resolved to. *)
Definition resumeCameraScan (st : AppState) (containerId : Z)
    (items : list string) (now : Z) : AppState :=
  match items with
  | _ :: _ =>
      let confirmationMessage :=
        Message.mk (JS.numToString now) ai
          ("I scanned container #" ++ JS.numToString containerId
           ++ " and found these items: " ++ JS.join ", " items
           ++ ". Which of these should I add?") false in
      mkApp (containers st)
            (replaceLast (messages st) confirmationMessage)
            false
            (isCameraOpen st)
            (Some (PendingScan.mk containerId items))
            (outstanding st)
  | [] =>
      let noItemsMessage :=
        Message.mk (JS.numToString (now + 2)) ai
          ("I couldn't identify any distinct items in container #"
           ++ JS.numToString containerId ++ ", so I left it as is.") false in
      mkApp (containers st)
            (replaceLast (messages st) noItemsMessage)
            false
            (isCameraOpen st)
            (pendingScannedItems st)
            (outstanding st)
  end.

(** What can happen to the component. *)
Inductive Event : Type :=
  | Submit (messageText : string) (now : Z)
      (** the Enter key or the send button: [handleSendMessage(userInput)] *)
  | InterpretSettles (k : nat) (reply : Reply) (now : Z)
      (** the [await] of the [k]-th outstanding call resumes *)
  | OpenCamera
  | CloseCamera
  | Capture (containerId : Z) (now : Z)
      (** the capture button of the camera modal: [onScan] *)
  | ScanSettles (k : nat) (items : list string) (now : Z).

Fixpoint removeNth {A : Type} (k : nat) (l : list A) : list A :=
  match l, k with
  | [], _ => []
  | _ :: rest, O => rest
  | x :: rest, S k' => x :: removeNth k' rest
  end.

Definition withoutCall (st : AppState) (k : nat) : AppState :=
  mkApp (containers st) (messages st) (isProcessing st) (isCameraOpen st)
        (pendingScannedItems st) (removeNth k (outstanding st)).

Definition setCameraOpen (st : AppState) (b : bool) : AppState :=
  mkApp (containers st) (messages st) (isProcessing st) b
        (pendingScannedItems st) (outstanding st).

(** The capture button is rendered with the modal and is disabled while
    [isScanning] (that is [isProcessing]) or when there is no container. *)
Definition captureEnabled (st : AppState) : bool :=
  isCameraOpen st && negb (isProcessing st)
  && match containers st with [] => false | _ :: _ => true end.

(** One event.  [None]: the event cannot happen in [st] (no such
    outstanding call), or its outcome is [OutOfModel]. *)
Definition step (st : AppState) (ev : Event) : option AppState :=
  match ev with
  | Submit messageText now => Some (handleSendMessage st messageText now)
  | InterpretSettles k reply now =>
      match nth_error (outstanding st) k with
      | Some (Interpreting closedContainers closedPending) =>
          resumeSendMessage (withoutCall st k) closedContainers closedPending
            reply now
      | _ => None
      end
  | OpenCamera => Some (setCameraOpen st true)
  | CloseCamera => Some (setCameraOpen st false)
  | Capture containerId now =>
      if captureEnabled st then Some (handleCameraScan st containerId now)
      else Some st
  | ScanSettles k items now =>
      match nth_error (outstanding st) k with
      | Some (Scanning containerId) =>
          Some (resumeCameraScan (withoutCall st k) containerId items now)
      | _ => None
      end
  end.

(** The states the component can be in. *)
Inductive Reachable : AppState -> Prop :=
  | Reachable_initial : Reachable initialState
  | Reachable_step : forall st ev st',
      Reachable st -> step st ev = Some st' -> Reachable st'.

(** A run of events. *)
Fixpoint run (st : AppState) (evs : list Event) : option AppState :=
  match evs with
  | [] => Some st
  | ev :: rest =>
      match step st ev with
      | Some st' => run st' rest
      | None => None
      end
  end.

(** A run of typed actions against the store, each on the store left by
    the one before. *)
Definition executeAll (containers : list Container.t)
    (actions : list AIAction.t) : list Container.t :=
  fold_left (fun store action => fst (execute store action)) actions containers.

(* ================================================================== *)
(** * src/src/App.tsx: a turn in which executeAction raises            *)
(* ================================================================== *)

(** An update as React meets it when it renders [App] again.  [None]:
    applying the updater raises, or it leaves a store that [App] cannot
    render, a container whose [items] is no array (line 232 calls
    [container.items.map]).  Such an error is raised in the render and
    not inside the [try] of [handleSendMessage]; [App] has no error
    boundary, so nothing is rendered any more. *)
Definition Updater : Type := list Container.t -> option (list Container.t).

(** The updaters that [executeAction] makes from a value of type
    AIAction. *)
Definition total (u : list Container.t -> list Container.t) : Updater :=
  fun prev => Some (u prev).

Definition applyUpdate (queued : option Updater) (prev : list Container.t)
  : option (list Container.t) :=
  match queued with
  | Some updater => updater prev
  | None => Some prev
  end.

(** What a call of [executeAction] comes to: it returns its text or it
    raises, in both cases after it has handed [queued] to
    [setContainers], when it got that far. *)
Inductive Execution : Type :=
  | Returned (queued : option Updater) (aiResponseText : string)
  | Raised (queued : option Updater).

(** How a turn ends. *)
Inductive TurnEnd : Type :=
  | Rendered (st : AppState)   (** [App] is rendered with this state *)
  | RenderRaises.              (** the render raises *)

(** The updater of lines 57-71 when [itemsToRemove] is a text that is
    not empty: for a container with the number, line 62 filters its
    items, and on the first item [itemsToRemove.some] raises, a text
    having no [some]; with no item to filter nothing raises and only
    the items to add are left to deal with. *)
Definition updateItemsByText (n : Z) (itemsToAdd : option (list string))
  : Updater :=
  fun prev =>
    if existsb (fun c => (Container.id c =? n)
                         && match Container.items c with
                            | [] => false
                            | _ :: _ => true
                            end) prev
    then None
    else Some (updateItemsIn n itemsToAdd None prev).

(** [executeAction] on a run-time value, once more: what [executeParsed]
    follows, and two more shapes of reply on which [executeAction]
    raises after its call of [setContainers].
    - UPDATE_ITEMS for a container that is found, with [itemsToRemove] a
      text that is not empty: line 74 raises, a text having no [join]
      (line 73 already, when [itemsToAdd] is such a text too).
    - CREATE_CONTAINER with [items] a text that is not empty: line 121
      hands over an updater that appends a container whose [items] is
      this text, then line 122 raises. *)
Definition executeValue (containers : list Container.t) (v : JSON)
  : option Execution :=
  match executeParsed containers v with
  | Returns (queued, aiResponseText) =>
      Some (Returned (option_map total queued) aiResponseText)
  | Throws queued => Some (Raised (option_map total queued))
  | OutOfModel =>
      match getField "action" v with
      | Some (JString name) =>
          if (name =? ActionType.UPDATE_ITEMS)%string then
            match asNumber (getField "containerNumber" v) with
            | Some n =>
                match truthyNumber n with
                | Some m =>
                    match findContainer m containers,
                          asItems (getField "itemsToRemove" v),
                          asItems (getField "itemsToAdd" v) with
                    | Some _, Text _, Missing =>
                        Some (Raised (Some (updateItemsByText m None)))
                    | Some _, Text _, Strings add =>
                        Some (Raised (Some (updateItemsByText m (Some add))))
                    | Some _, Text _, Text s =>
                        Some (Raised
                                (Some (updateItemsByText m (Some (spread s)))))
                    | _, _, _ => None
                    end
                | None => None
                end
            | None => None
            end
          else if (name =? ActionType.CREATE_CONTAINER)%string then
            match asItems (getField "items" v) with
            | Text _ => Some (Raised (Some (fun _ => None)))
            | _ => None
            end
          else None
      | _ => None
      end
  end.

(** [handleSendMessage], lines 164-186, for whatever [executeAction]
    comes to: the [try] block goes on after a return, the [catch] block
    takes over after a raise, and neither touches the update that was
    handed over.  [st] is the state without the call that settles. *)
Definition finishTurn (st : AppState) (closedPending : option PendingScan.t)
    (e : Execution) (now : Z) : TurnEnd :=
  let queued := match e with Returned q _ | Raised q => q end in
  let lastMessage :=
    match e with
    | Returned _ aiResponseText =>
        Message.mk (JS.numToString (now + 2)) ai aiResponseText false
    | Raised _ =>
        Message.mk (JS.numToString (now + 2)) system
          "An error occurred. Please try again." false
    end in
  match applyUpdate queued (containers st) with
  | Some store =>
      Rendered (mkApp store
                      (replaceLast (messages st) lastMessage)
                      false
                      (isCameraOpen st)
                      (clearPending closedPending (pendingScannedItems st))
                      (outstanding st))
  | None => RenderRaises
  end.

(** The [await] of the [k]-th outstanding call resumes and
    [executeAction] comes to [e]. *)
Definition settleWith (st : AppState) (k : nat) (e : Execution) (now : Z)
  : option TurnEnd :=
  match nth_error (outstanding st) k with
  | Some (Interpreting _ closedPending) =>
      Some (finishTurn (withoutCall st k) closedPending e now)
  | _ => None
  end.

(** The same with the reply of the interpreter; [None] also when the
    reply is one that [executeValue] does not follow. *)
Definition settle (st : AppState) (k : nat) (reply : Reply) (now : Z)
  : option TurnEnd :=
  match nth_error (outstanding st) k with
  | Some (Interpreting closedContainers _) =>
      match executeValue closedContainers (interpretUserCommand reply) with
      | Some e => settleWith st k e now
      | None => None
      end
  | _ => None
  end.

(* ================================================================== *)
(** * The vocabulary of the statements                                 *)
(* ================================================================== *)

(** [t] occurs in [s]: some text, then [t], then some text. *)
Definition occursIn (t s : string) : Prop :=
  exists before after, s = before ++ t ++ after.

(** An item is hit by a removal list when the lower-case form of one of
    the terms occurs in the lower-case form of the item. *)
Definition removedBy (terms : list string) (item : string) : Prop :=
  exists term,
    In term terms /\ occursIn (JS.toLowerCase term) (JS.toLowerCase item).

Definition ids (store : list Container.t) : list Z :=
  map Container.id store.

(** The typed actions, as the interpreter is asked to produce them. *)
Definition UPDATE_ITEMS (n : Z) (itemsToAdd itemsToRemove : option (list string))
  : AIAction.t :=
  AIAction.mk ActionType.UPDATE_ITEMS (Some n) None itemsToAdd itemsToRemove.
Definition LIST_ITEMS (n : Z) : AIAction.t :=
  AIAction.mk ActionType.LIST_ITEMS (Some n) None None None.
Definition LIST_ALL_CONTAINERS : AIAction.t :=
  AIAction.mk ActionType.LIST_ALL_CONTAINERS None None None None.
Definition CLEAR_CONTAINER (n : Z) : AIAction.t :=
  AIAction.mk ActionType.CLEAR_CONTAINER (Some n) None None None.
Definition CREATE_CONTAINER (its : option (list string)) : AIAction.t :=
  AIAction.mk ActionType.CREATE_CONTAINER None its None None.
Definition DELETE_CONTAINER (n : Z) : AIAction.t :=
  AIAction.mk ActionType.DELETE_CONTAINER (Some n) None None None.

Definition didNotUnderstand : string :=
  "I'm sorry, I didn't quite understand that. Could you please rephrase?".
Definition couldNotPerform : string :=
  "Sorry, I couldn't perform that action.".

(** The run-time value of a typed action: an object with the fields that
    are present. *)
Definition numberField (k : string) (n : option Z) : list (string * JSON) :=
  match n with
  | Some z => [(k, JNumber z)]
  | None => []
  end.

Definition itemsField (k : string) (l : option (list string))
  : list (string * JSON) :=
  match l with
  | Some l' => [(k, JArray (map JString l'))]
  | None => []
  end.

Definition toJSON (a : AIAction.t) : JSON :=
  JObject ([("action", JString (AIAction.action a))]
           ++ numberField "containerNumber" (AIAction.containerNumber a)
           ++ itemsField "items" (AIAction.items a)
           ++ itemsField "itemsToAdd" (AIAction.itemsToAdd a)
           ++ itemsField "itemsToRemove" (AIAction.itemsToRemove a))%list.

Definition aiMessage (aiResponseText : string) (now : Z) : Message.t :=
  Message.mk (JS.numToString (now + 2)) ai aiResponseText false.

(** The four shapes of updater that [executeAction] hands over. *)
Inductive updaterOf (store : list Container.t)
  : (list Container.t -> list Container.t) -> Prop :=
  | updater_update n add rem : updaterOf store (updateItemsIn n add rem)
  | updater_clear n : updaterOf store (clearIn n)
  | updater_append its :
      updaterOf store (appendContainer (newContainerId store) its)
  | updater_delete n : updaterOf store (deleteIn n).

(** The ids of a store as the data model wants them. *)
Definition goodIds (store : list Container.t) : Prop :=
  NoDup (ids store) /\ Forall (fun i => 0 < i) (ids store).

(** The outcomes that [executeParsed] has. *)
Inductive outcomeShape (store : list Container.t) : Outcome -> Prop :=
  | shape_unmodelled : outcomeShape store OutOfModel
  | shape_null : outcomeShape store (Throws None)
  | shape_returns a : outcomeShape store (Returns (executeAction store a))
  | shape_throws a : outcomeShape store (Throws (fst (executeAction store a)))
  | shape_no_name : outcomeShape store (Returns (None, couldNotPerform)).

(** What holds of the outstanding calls in every state: there is at most
    one, there is one exactly while [isProcessing] is set, and an
    interpretation call closed over the store and the pending scan that
    the state still has. *)
Definition oneCallAtMost (st : AppState) : Prop :=
  match outstanding st with
  | [] => isProcessing st = false
  | [Interpreting closedContainers closedPending] =>
      isProcessing st = true
      /\ closedContainers = containers st
      /\ closedPending = pendingScannedItems st
  | [Scanning _] => isProcessing st = true
  | _ :: _ :: _ => False
  end.

Definition errorMessage (now : Z) : Message.t :=
  Message.mk (JS.numToString (now + 2)) system
    "An error occurred. Please try again." false.

Definition userMessage (messageText : string) (now : Z) : Message.t :=
  Message.mk (JS.numToString now) user messageText false.

(* ================================================================== *)
(** * More of the source                                               *)
(* ================================================================== *)

(** [interpretUserCommand], line 64: the containers named in the system
    instruction. *)
Definition availableContainers (containers : list Container.t) : string :=
  match containers with
  | _ :: _ =>
      JS.join ", "
        (map (fun c => "Container #" ++ JS.numToString (Container.id c))
             containers)
  | [] => "None"
  end.

(** [interpretUserCommand], line 65: the highest id named in the system
    instruction. *)
Definition highestContainerId (containers : list Container.t) : Z :=
  match map Container.id containers with
  | [] => 0
  | x :: xs => JS.Math_max x xs
  end.

(** Truthiness of a parsed value. *)
Definition truthyValue (v : JSON) : bool :=
  match v with
  | JNull => false
  | JBool b => b
  | JNumber n => negb (n =? 0)
  | JString s => JS.truthy s
  | JArray _ | JObject _ => true
  end.

(** [analyzeImageOfBinContents], lines 113-142, from the reply on.  The
    function returns [result.items || []], and the empty list when
    anything in its [try] block throws, which reading [items] of [null]
    does.  [None]: it returns a value that is not an array of strings. *)
Definition analyzeImageOfBinContents (reply : Reply) : option (list string) :=
  match reply with
  | Failed => Some []
  | Parsed JNull => Some []
  | Parsed result =>
      match getField "items" result with
      | None => Some []
      | Some v =>
          if truthyValue v
          then match v with
               | JArray l => asStrings l
               | _ => None
               end
          else Some []
      end
  end.

(** [handleCameraScan] from the reply of the image call on. *)
Definition settleCameraScan (st : AppState) (containerId : Z)
    (reply : Reply) (now : Z) : option AppState :=
  option_map (fun items => resumeCameraScan st containerId items now)
             (analyzeImageOfBinContents reply).

(** A message that is not a loading placeholder. *)
Definition notLoading (m : Message.t) : Prop := Message.isLoading m = false.

(** The transcript holds a loading placeholder exactly while
    [isProcessing] is set, and then as its last message. *)
Definition placeholderLast (st : AppState) : Prop :=
  if isProcessing st
  then exists prev m,
         messages st = (prev ++ [m])%list
         /\ Message.isLoading m = true /\ Forall notLoading prev
  else Forall notLoading (messages st).

(** The transcript without its loading placeholder. *)
Definition settledMessages (ms : list Message.t) : list Message.t :=
  filter (fun m => negb (Message.isLoading m)) ms.

(** A text of white space only: each of its characters is one of the
    white-space characters and line terminators of [JS.whiteSpace]. *)
Definition allSpaces (s : string) : Prop :=
  Forall (fun c => In c JS.whiteSpace) (JS.codePoints s).

(** Two labels that differ in the case of letters at most. *)
Definition sameIgnoringCase (a b : string) : Prop :=
  JS.toLowerCase a = JS.toLowerCase b.

(* ================================================================== *)
(** * Strings                                                          *)
(* ================================================================== *)

(** The lower case of a literal text of ASCII characters, by the law of
    the engine. *)
Ltac lower_ascii :=
  repeat match goal with
         | |- context [JS.toLowerCase ?s] =>
             rewrite (JS.toLowerCase_ascii s eq_refl)
         end.

Section StringFacts.

Lemma append_nil_r (s : string) : s ++ EmptyString = s.
Proof. induction s as [|c s IH]; simpl; [reflexivity | now rewrite IH]. Qed.

Lemma append_assoc (a b c : string) : (a ++ b) ++ c = a ++ (b ++ c).
Proof. induction a as [|x a IH]; simpl; [reflexivity | now rewrite IH]. Qed.

Lemma prefix_spec (t s : string) :
  prefix t s = true <-> exists after, s = t ++ after.
Proof.
  revert s; induction t as [|a t IH]; intros s.
  - split; [intros _; now exists s | intros _; now destruct s].
  - destruct s as [|b s]; simpl.
    + split; [discriminate | intros [after H]; discriminate].
    + destruct (ascii_dec a b) as [->|Hab].
      * rewrite IH. split; intros [after H]; exists after.
        -- now rewrite H.
        -- now injection H.
      * split; [discriminate | intros [after H]].
        injection H as H1 _. now elim Hab.
Qed.

Lemma includes_spec (s t : string) :
  JS.includes s t = true <-> occursIn t s.
Proof.
  unfold occursIn. induction s as [|c s IH].
  - change (JS.includes EmptyString t) with (prefix t EmptyString || false).
    rewrite orb_false_r, prefix_spec. split.
    + intros [after H]. now exists EmptyString, after.
    + intros [before [after H]]. destruct before; [|discriminate].
      now exists after.
  - change (JS.includes (String c s) t)
      with (prefix t (String c s) || JS.includes s t).
    rewrite orb_true_iff, prefix_spec, IH. split.
    + intros [[after H]|[before [after H]]].
      * now exists EmptyString, after.
      * exists (String c before), after. simpl. now rewrite H.
    + intros [before [after H]]. destruct before as [|b before].
      * left. now exists after.
      * right. simpl in H. injection H as _ H. now exists before, after.
Qed.

Lemma survives_spec (terms : list string) (item : string) :
  survives terms item = false <-> removedBy terms item.
Proof.
  unfold survives, removedBy. rewrite negb_false_iff, existsb_exists.
  split; intros [term [Hin H]]; exists term; split; trivial;
    now apply includes_spec.
Qed.

End StringFacts.

(* ================================================================== *)
(** * Sets in insertion order                                          *)
(* ================================================================== *)

Section SetFacts.

Lemma member_In (seen : list string) (x : string) :
  existsb (String.eqb x) seen = true <-> In x seen.
Proof.
  rewrite existsb_exists. split.
  - intros [y [Hy E]]. apply String.eqb_eq in E. now subst.
  - intros H. exists x. split; [assumption | apply String.eqb_refl].
Qed.

Lemma fold_setAdd_snoc (l seen : list string) (x : string) :
  fold_left JS.setAdd (l ++ [x]) seen = JS.setAdd (fold_left JS.setAdd l seen) x.
Proof. now rewrite fold_left_app. Qed.

Lemma fold_setAdd_In (l seen : list string) (x : string) :
  In x (fold_left JS.setAdd l seen) <-> In x seen \/ In x l.
Proof.
  revert seen; induction l as [|y l IH]; intros seen; simpl.
  - tauto.
  - rewrite IH. unfold JS.setAdd.
    destruct (existsb (String.eqb y) seen) eqn:E.
    + apply member_In in E. split; [tauto|].
      intros [H|[->|H]]; tauto.
    + rewrite in_app_iff. simpl. tauto.
Qed.

Lemma fold_setAdd_NoDup (l seen : list string) :
  NoDup seen -> NoDup (fold_left JS.setAdd l seen).
Proof.
  revert seen; induction l as [|y l IH]; intros seen Hnd; simpl; trivial.
  apply IH. unfold JS.setAdd.
  destruct (existsb (String.eqb y) seen) eqn:E; trivial.
  apply NoDup_app; trivial.
  - repeat constructor; simpl; tauto.
  - intros z Hz [<-|[]]. apply member_In in Hz. congruence.
Qed.

Lemma fold_setAdd_fresh (l seen : list string) :
  NoDup (seen ++ l) -> fold_left JS.setAdd l seen = (seen ++ l)%list.
Proof.
  revert seen; induction l as [|y l IH]; intros seen Hnd; simpl.
  - now rewrite app_nil_r.
  - unfold JS.setAdd at 2.
    destruct (existsb (String.eqb y) seen) eqn:E.
    + apply member_In in E. apply NoDup_remove_2 in Hnd.
      elim Hnd. apply in_or_app. now left.
    + rewrite IH; rewrite <- app_assoc; trivial.
Qed.

Lemma fold_setAdd_present (l seen : list string) :
  (forall x, In x l -> In x seen) -> fold_left JS.setAdd l seen = seen.
Proof.
  revert seen; induction l as [|y l IH]; intros seen Hin; simpl; trivial.
  unfold JS.setAdd at 2.
  destruct (existsb (String.eqb y) seen) eqn:E.
  - apply IH. intros x Hx. apply Hin. now right.
  - assert (In y seen) as H by (apply Hin; now left).
    apply member_In in H. congruence.
Qed.

(** Starting from [seen] is starting from nothing and dropping what
    [seen] already holds. *)
Lemma fold_setAdd_from (l seen : list string) :
  fold_left JS.setAdd l seen
  = (seen ++ filter (fun y => negb (existsb (String.eqb y) seen))
                    (JS.newSet l))%list.
Proof.
  unfold JS.newSet. induction l as [|x l IH] using rev_ind.
  - simpl. now rewrite app_nil_r.
  - rewrite !fold_setAdd_snoc, IH.
    set (S0 := fold_left JS.setAdd l []). clearbody S0.
    unfold JS.setAdd. rewrite existsb_app.
    assert (existsb (String.eqb x)
              (filter (fun y => negb (existsb (String.eqb y) seen)) S0)
            = negb (existsb (String.eqb x) seen)
              && existsb (String.eqb x) S0) as ->.
    { apply eq_true_iff_eq.
      rewrite andb_true_iff, negb_true_iff, !member_In, filter_In.
      rewrite negb_true_iff. split.
      - intros [H1 H2]. split; [|assumption].
        destruct (existsb (String.eqb x) seen); congruence.
      - tauto. }
    destruct (existsb (String.eqb x) seen) eqn:Eseen;
      destruct (existsb (String.eqb x) S0) eqn:ES0; simpl; trivial;
      rewrite filter_app; simpl; rewrite Eseen; simpl.
    + now rewrite app_nil_r.
    + now rewrite app_assoc.
Qed.

Lemma newSet_nil : JS.newSet [] = [].
Proof. reflexivity. Qed.

(** The head is kept, its later copies are dropped, and the rest follows
    in the order of its own first occurrences. *)
Lemma newSet_cons (x : string) (l : list string) :
  JS.newSet (x :: l)
  = x :: filter (fun y => negb (y =? x)%string) (JS.newSet l).
Proof.
  unfold JS.newSet at 1. simpl. unfold JS.setAdd at 2. simpl.
  rewrite fold_setAdd_from. simpl. f_equal. apply filter_ext.
  intros y. now rewrite orb_false_r.
Qed.

Lemma newSet_In (l : list string) (x : string) :
  In x (JS.newSet l) <-> In x l.
Proof. unfold JS.newSet. rewrite fold_setAdd_In. simpl. tauto. Qed.

Lemma newSet_NoDup (l : list string) : NoDup (JS.newSet l).
Proof. apply fold_setAdd_NoDup. constructor. Qed.

Lemma newSet_fresh (l : list string) : NoDup l -> JS.newSet l = l.
Proof. intros H. unfold JS.newSet. now rewrite fold_setAdd_fresh. Qed.

(** Adding what is already there to a list without duplicates. *)
Lemma newSet_present (l add : list string) :
  NoDup l -> (forall x, In x add -> In x l) -> JS.newSet (l ++ add) = l.
Proof.
  intros Hnd Hin. unfold JS.newSet. rewrite fold_left_app.
  fold (JS.newSet l). rewrite (newSet_fresh l Hnd).
  now apply fold_setAdd_present.
Qed.

End SetFacts.

(* ================================================================== *)
(** * The executor, action by action                                   *)
(* ================================================================== *)

Section ExecutorEquations.

Variable store : list Container.t.

Lemma executeAction_CREATE (its : option (list string)) :
  executeAction store (CREATE_CONTAINER its)
  = (Some (appendContainer (newContainerId store) (orEmpty its)),
     "I've created container " ++ JS.numToString (newContainerId store)
     ++ (if nonEmpty its
         then " and added " ++ JS.dquote ++ JS.join ", " (orEmpty its)
              ++ JS.dquote
         else EmptyString)
     ++ ".").
Proof. reflexivity. Qed.

Lemma executeAction_DELETE (n : Z) :
  executeAction store (DELETE_CONTAINER n)
  = match truthyNumber (Some n) with
    | Some n =>
        if existsb (fun c => Container.id c =? n) store
        then (Some (deleteIn n),
              "OK, I have deleted container #" ++ JS.numToString n ++ ".")
        else (None,
              "Sorry, I couldn't find container #" ++ JS.numToString n
              ++ " to delete.")
    | None => (None, "Please specify which container you'd like to delete.")
    end.
Proof. reflexivity. Qed.

Lemma executeAction_CLEAR (n : Z) :
  executeAction store (CLEAR_CONTAINER n)
  = match truthyNumber (Some n) with
    | Some n =>
        (Some (clearIn n),
         "Container " ++ JS.numToString n ++ " has been cleared.")
    | None => (None, couldNotPerform)
    end.
Proof. reflexivity. Qed.

Lemma executeAction_LIST_ITEMS (n : Z) :
  executeAction store (LIST_ITEMS n)
  = match truthyNumber (Some n) with
    | Some n =>
        match findContainer n store with
        | Some container =>
            (None,
             "Container " ++ JS.numToString (Container.id container)
             ++ " contains: "
             ++ match Container.items container with
                | _ :: _ => JS.join ", " (Container.items container)
                | [] => "It's empty"
                end
             ++ ".")
        | None =>
            (None,
             "Sorry, I couldn't find container " ++ JS.numToString n ++ ".")
        end
    | None => (None, couldNotPerform)
    end.
Proof. reflexivity. Qed.

Lemma executeAction_LIST_ALL :
  executeAction store LIST_ALL_CONTAINERS
  = match store with
    | _ :: _ =>
        (None,
         "Here's what's in all your containers:" ++ JS.newline ++ JS.newline
         ++ JS.join JS.newline (map describeContainer store))
    | [] => (None, "You don't have any containers yet.")
    end.
Proof. reflexivity. Qed.

Lemma executeAction_UPDATE_found (n : Z) (add rem : option (list string))
    (c : Container.t) :
  n <> 0 -> findContainer n store = Some c ->
  fst (executeAction store (UPDATE_ITEMS n add rem))
  = Some (updateItemsIn n add rem).
Proof.
  intros Hn Hfind. unfold executeAction, UPDATE_ITEMS.
  cbn [AIAction.action AIAction.containerNumber].
  change (ActionType.UPDATE_ITEMS =? ActionType.UPDATE_ITEMS)%string with true.
  cbv iota. destruct n; try congruence; cbn [truthyNumber]; now rewrite Hfind.
Qed.

Lemma executeAction_UPDATE_missing (n : Z) (add rem : option (list string)) :
  n <> 0 -> findContainer n store = None ->
  executeAction store (UPDATE_ITEMS n add rem)
  = (None, "Sorry, I couldn't find container " ++ JS.numToString n ++ ".").
Proof.
  intros Hn Hfind. unfold executeAction, UPDATE_ITEMS.
  cbn [AIAction.action AIAction.containerNumber].
  change (ActionType.UPDATE_ITEMS =? ActionType.UPDATE_ITEMS)%string with true.
  cbv iota. destruct n; try congruence; cbn [truthyNumber]; now rewrite Hfind.
Qed.

End ExecutorEquations.

Lemma truthyNumber_nonzero (n : Z) : n <> 0 -> truthyNumber (Some n) = Some n.
Proof. destruct n; simpl; congruence. Qed.

Lemma findContainer_In (n : Z) (store : list Container.t) (c : Container.t) :
  In c store -> Container.id c = n -> exists c', findContainer n store = Some c'.
Proof.
  intros Hin Hid. unfold findContainer.
  destruct (find (fun c0 => Container.id c0 =? n) store) eqn:E; eauto.
  exfalso. apply (find_none _ _ E) in Hin. simpl in Hin. lia.
Qed.

Lemma findContainer_absent (n : Z) (store : list Container.t) :
  ~ In n (ids store) -> findContainer n store = None.
Proof.
  intros H. unfold findContainer.
  destruct (find (fun c0 => Container.id c0 =? n) store) eqn:E; trivial.
  apply find_some in E. destruct E as [Hin E]. elim H.
  apply Z.eqb_eq in E. subst n. now apply in_map.
Qed.

Lemma existsb_absent (n : Z) (store : list Container.t) :
  ~ In n (ids store) -> existsb (fun c => Container.id c =? n) store = false.
Proof.
  intros H. apply not_true_is_false. intros E.
  apply existsb_exists in E. destruct E as [c [Hin E]].
  apply Z.eqb_eq in E. subst n. elim H. now apply in_map.
Qed.

(* ================================================================== *)
(** * Container ids                                                    *)
(* ================================================================== *)

Section IdFacts.

Lemma Math_max_upper (xs : list Z) (x y : Z) :
  In y (x :: xs) -> y <= JS.Math_max x xs.
Proof.
  unfold JS.Math_max. revert x y; induction xs as [|z xs IH]; intros x y; simpl.
  - intros [<-|[]]. lia.
  - intros [<-|[<-|H]].
    + pose proof (IH (Z.max x z) (Z.max x z) (or_introl eq_refl)). lia.
    + pose proof (IH (Z.max x z) (Z.max x z) (or_introl eq_refl)). lia.
    + apply IH. now right.
Qed.

Lemma Math_max_In (xs : list Z) (x : Z) : In (JS.Math_max x xs) (x :: xs).
Proof.
  unfold JS.Math_max. revert x; induction xs as [|z xs IH]; intros x; simpl.
  - now left.
  - destruct (IH (Z.max x z)) as [H|H].
    + rewrite <- H. destruct (Z.max_spec x z) as [[_ ->]|[_ ->]]; tauto.
    + tauto.
Qed.

Lemma newContainerId_above (store : list Container.t) (i : Z) :
  In i (ids store) -> i < newContainerId store.
Proof.
  unfold newContainerId, ids. destruct (map Container.id store) as [|x xs].
  - intros [].
  - intros H. apply Math_max_upper in H. lia.
Qed.

Lemma newContainerId_fresh (store : list Container.t) :
  ~ In (newContainerId store) (ids store).
Proof. intros H. apply newContainerId_above in H. lia. Qed.

Lemma ids_updateItemsIn n add rem store :
  ids (updateItemsIn n add rem store) = ids store.
Proof.
  unfold ids, updateItemsIn. rewrite map_map. apply map_ext.
  intros c. now destruct (Container.id c =? n).
Qed.

Lemma ids_clearIn n store : ids (clearIn n store) = ids store.
Proof.
  unfold ids, clearIn. rewrite map_map. apply map_ext.
  intros c. now destruct (Container.id c =? n).
Qed.

Lemma ids_appendContainer i its store :
  ids (appendContainer i its store) = (ids store ++ [i])%list.
Proof. unfold ids, appendContainer. now rewrite map_app. Qed.

Lemma ids_deleteIn n store :
  ids (deleteIn n store) = filter (fun i => negb (i =? n)) (ids store).
Proof.
  unfold ids, deleteIn. induction store as [|c store IH]; simpl; trivial.
  destruct (Container.id c =? n); simpl; now rewrite IH.
Qed.

Lemma executeAction_updater (store : list Container.t) (a : AIAction.t)
    (u : list Container.t -> list Container.t) :
  fst (executeAction store a) = Some u -> updaterOf store u.
Proof.
  unfold executeAction.
  repeat match goal with
         | |- context [if ?b then _ else _] => destruct b
         | |- context [match truthyNumber ?n with _ => _ end] =>
             destruct (truthyNumber n)
         | |- context [match findContainer ?n ?s with _ => _ end] =>
             destruct (findContainer n s)
         | |- context [match store with _ => _ end] => destruct store
         end;
    simpl; intros H; try discriminate; injection H as <-; constructor.
Qed.

Lemma NoDup_filter {A : Type} (f : A -> bool) (l : list A) :
  NoDup l -> NoDup (filter f l).
Proof.
  induction 1 as [|x l Hx Hnd IH]; simpl; [constructor|].
  destruct (f x); trivial. constructor; trivial.
  rewrite filter_In. tauto.
Qed.

Lemma updater_keeps_ids_unique (store : list Container.t)
    (u : list Container.t -> list Container.t) :
  updaterOf store u -> NoDup (ids store) -> NoDup (ids (u store)).
Proof.
  intros [n add rem|n|its|n] Hnd.
  - now rewrite ids_updateItemsIn.
  - now rewrite ids_clearIn.
  - rewrite ids_appendContainer. apply NoDup_app; trivial.
    + repeat constructor. simpl. tauto.
    + intros i Hi [<-|[]]. now apply newContainerId_fresh in Hi.
  - rewrite ids_deleteIn. now apply NoDup_filter.
Qed.

Lemma execute_keeps_ids_unique (store : list Container.t) (a : AIAction.t) :
  NoDup (ids store) -> NoDup (ids (fst (execute store a))).
Proof.
  intros Hnd. unfold execute, applyEffect. simpl.
  destruct (fst (executeAction store a)) as [u|] eqn:E; trivial.
  apply updater_keeps_ids_unique; trivial.
  now apply executeAction_updater with (a := a).
Qed.

Lemma updater_keeps_ids_positive (store : list Container.t)
    (u : list Container.t -> list Container.t) :
  updaterOf store u ->
  Forall (fun i => 0 < i) (ids store) -> Forall (fun i => 0 < i) (ids (u store)).
Proof.
  intros [n add rem|n|its|n] Hpos.
  - now rewrite ids_updateItemsIn.
  - now rewrite ids_clearIn.
  - rewrite ids_appendContainer. apply Forall_app. split; trivial.
    repeat constructor. unfold newContainerId.
    destruct store as [|c store]; simpl; [lia|].
    inversion Hpos as [|? ? Hc _]; subst.
    pose proof (Math_max_upper (map Container.id store) (Container.id c)
                  (Container.id c) (or_introl eq_refl)).
    lia.
  - rewrite ids_deleteIn. rewrite Forall_forall in *.
    intros i Hi. apply filter_In in Hi. now apply Hpos.
Qed.

End IdFacts.

(* ================================================================== *)
(** * UPDATE_ITEMS                                                     *)
(* ================================================================== *)

Section UpdateFacts.

Lemma filter_survives_nil (l : list string) : filter (survives []) l = l.
Proof. induction l as [|x l IH]; simpl; [reflexivity | now rewrite IH]. Qed.

(** With or without its guard, the removal step is one filter. *)
Lemma updatedItems_filter (old : list string) (add rem : option (list string)) :
  updatedItems old add rem
  = if nonEmpty add
    then JS.newSet (filter (survives (orEmpty rem)) old ++ orEmpty add)
    else filter (survives (orEmpty rem)) old.
Proof.
  unfold updatedItems. destruct rem as [[|r rem]|]; simpl;
    now rewrite ?filter_survives_nil.
Qed.

Lemma execute_UPDATE_nth (store : list Container.t) (n : Z)
    (add rem : option (list string)) (i : nat) (c : Container.t) :
  n <> 0 -> (exists c0, In c0 store /\ Container.id c0 = n) ->
  nth_error store i = Some c ->
  nth_error (fst (execute store (UPDATE_ITEMS n add rem))) i
  = Some (if Container.id c =? n
          then Container.mk (Container.id c)
                 (updatedItems (Container.items c) add rem)
          else c).
Proof.
  intros Hn [c0 [Hin Hid]] Hnth.
  destruct (findContainer_In n store c0 Hin Hid) as [c' Hfind].
  unfold execute, applyEffect. cbn [fst].
  rewrite (executeAction_UPDATE_found store n add rem c' Hn Hfind).
  unfold updateItemsIn. now rewrite nth_error_map, Hnth.
Qed.

End UpdateFacts.

(* ================================================================== *)
(** * Listing                                                          *)
(* ================================================================== *)

Section ListingFacts.

Lemma occursIn_refl (s : string) : occursIn s s.
Proof. exists EmptyString, EmptyString. simpl. now rewrite append_nil_r. Qed.

Lemma occursIn_append_l (t s before : string) :
  occursIn t s -> occursIn t (before ++ s).
Proof.
  intros [b [a ->]]. exists (before ++ b), a. now rewrite append_assoc.
Qed.

Lemma occursIn_append_r (t s after : string) :
  occursIn t s -> occursIn t (s ++ after).
Proof.
  intros [b [a ->]]. exists b, (a ++ after). now rewrite !append_assoc.
Qed.

Create HintDb occurs.
#[local] Hint Resolve occursIn_refl occursIn_append_l occursIn_append_r
  : occurs.

Lemma occursIn_join (sep x : string) (l : list string) :
  In x l -> occursIn x (JS.join sep l).
Proof.
  unfold JS.join. induction l as [|y l IH]; [intros []|].
  intros [->|H]; simpl; destruct l as [|z l]; auto with occurs.
  destruct H.
Qed.

(** LIST_ALL_CONTAINERS has a line for every container of the store. *)
Lemma list_all_describes_every_container (store : list Container.t)
    (c : Container.t) :
  In c store ->
  occursIn (describeContainer c) (snd (execute store LIST_ALL_CONTAINERS)).
Proof.
  intros Hin. unfold execute. cbn [snd]. rewrite executeAction_LIST_ALL.
  destruct store as [|c0 store]; [destruct Hin|]. cbn [snd].
  assert (occursIn (describeContainer c)
            (JS.join JS.newline (map describeContainer (c0 :: store))))
    by (apply occursIn_join; now apply in_map).
  auto with occurs.
Qed.

Lemma findContainer_appended (store : list Container.t) (i : Z)
    (its : list string) :
  ~ In i (ids store) ->
  findContainer i (appendContainer i its store) = Some (Container.mk i its).
Proof.
  unfold findContainer, appendContainer, ids.
  induction store as [|c store IH]; simpl; intros H.
  - now rewrite Z.eqb_refl.
  - destruct (Container.id c =? i) eqn:E.
    + apply Z.eqb_eq in E. tauto.
    + apply IH. tauto.
Qed.

Lemma newContainerId_positive (store : list Container.t) :
  Forall (fun i => 0 < i) (ids store) -> 0 < newContainerId store.
Proof.
  intros Hpos. destruct store as [|c store]; [reflexivity|].
  inversion Hpos as [|? ? Hc _]; subst.
  pose proof (newContainerId_above (c :: store) (Container.id c)
                (or_introl eq_refl)).
  lia.
Qed.

Lemma clearIn_absent (n : Z) (store : list Container.t) :
  ~ In n (ids store) -> clearIn n store = store.
Proof.
  unfold clearIn, ids. induction store as [|c store IH]; simpl; trivial.
  intros H. destruct (Container.id c =? n) eqn:E.
  - apply Z.eqb_eq in E. tauto.
  - f_equal. apply IH. tauto.
Qed.

End ListingFacts.

(* ================================================================== *)
(** * Replies of the interpreter                                       *)
(* ================================================================== *)

Section ReplyFacts.

Lemma unknown_name_eqbs (name : string) :
  isKnownAction name = false ->
  (name =? ActionType.UPDATE_ITEMS)%string = false
  /\ (name =? ActionType.LIST_ITEMS)%string = false
  /\ (name =? ActionType.LIST_ALL_CONTAINERS)%string = false
  /\ (name =? ActionType.CLEAR_CONTAINER)%string = false
  /\ (name =? ActionType.CREATE_CONTAINER)%string = false
  /\ (name =? ActionType.DELETE_CONTAINER)%string = false
  /\ (name =? ActionType.UNKNOWN)%string = false.
Proof.
  unfold isKnownAction, ActionType.values. cbn [existsb].
  rewrite !orb_false_iff. tauto.
Qed.

(** A name outside the enum falls through the switch, whatever the other
    fields hold. *)
Lemma executeAction_unknown_name (store : list Container.t) (a : AIAction.t) :
  isKnownAction (AIAction.action a) = false ->
  executeAction store a = (None, couldNotPerform).
Proof.
  intros H. apply unknown_name_eqbs in H.
  destruct H as (H1 & H2 & H3 & H4 & H5 & H6 & H7).
  unfold executeAction. now rewrite H1, H2, H3, H4, H5, H6, H7.
Qed.

Lemma executeParsed_unknown_name (store : list Container.t) (v : JSON) :
  v <> JNull ->
  (forall name, getField "action" v = Some (JString name) ->
                isKnownAction name = false) ->
  executeParsed store v = Returns (None, couldNotPerform).
Proof.
  intros Hnull Hname.
  destruct v as [|b|n|s|l|fields]; try congruence; try reflexivity.
  unfold executeParsed.
  destruct (getField "action" (JObject fields)) as [[|b|n|name|l|fs]|];
    try reflexivity.
  specialize (Hname name eq_refl).
  destruct (unknown_name_eqbs name Hname) as (H1 & H2 & H3 & H4 & H5 & H6 & H7).
  rewrite H1, H2, H4, H5, H6. cbn [orb]. f_equal.
  now apply executeAction_unknown_name.
Qed.

Lemma asStrings_strings (l : list string) :
  asStrings (map JString l) = Some l.
Proof. induction l as [|x l IH]; simpl; [reflexivity | now rewrite IH]. Qed.

Lemma getField_toJSON (a : AIAction.t) :
  getField "action" (toJSON a) = Some (JString (AIAction.action a))
  /\ asNumber (getField "containerNumber" (toJSON a))
     = Some (AIAction.containerNumber a)
  /\ asItems (getField "items" (toJSON a))
     = match AIAction.items a with Some l => Strings l | None => Missing end
  /\ asItems (getField "itemsToAdd" (toJSON a))
     = match AIAction.itemsToAdd a with Some l => Strings l | None => Missing end
  /\ asItems (getField "itemsToRemove" (toJSON a))
     = match AIAction.itemsToRemove a with
       | Some l => Strings l
       | None => Missing
       end.
Proof.
  destruct a as [name [n|] [its|] [add|] [rem|]]; cbn;
    rewrite ?asStrings_strings; repeat split; reflexivity.
Qed.

(** On the run-time value of a typed action, the run-time reading of
    [executeAction] is [executeAction]. *)
Lemma executeParsed_toJSON (store : list Container.t) (a : AIAction.t) :
  executeParsed store (toJSON a) = Returns (executeAction store a).
Proof.
  destruct (getField_toJSON a) as (Hname & Hn & Hits & Hadd & Hrem).
  unfold executeParsed.
  change (toJSON a) with
    (JObject ([("action", JString (AIAction.action a))]
              ++ numberField "containerNumber" (AIAction.containerNumber a)
              ++ itemsField "items" (AIAction.items a)
              ++ itemsField "itemsToAdd" (AIAction.itemsToAdd a)
              ++ itemsField "itemsToRemove" (AIAction.itemsToRemove a))%list)
    at 1.
  cbv iota. rewrite Hname, Hn, Hits, Hadd, Hrem.
  destruct a as [name n its add rem]. cbn [AIAction.action
    AIAction.containerNumber AIAction.items AIAction.itemsToAdd
    AIAction.itemsToRemove].
  destruct (String.eqb_spec name ActionType.UPDATE_ITEMS) as [->|H1].
  { unfold executeAction. cbn [AIAction.action AIAction.containerNumber
      AIAction.itemsToAdd AIAction.itemsToRemove].
    change (ActionType.UPDATE_ITEMS =? ActionType.UPDATE_ITEMS)%string with true.
    cbv iota. destruct (truthyNumber n) as [m|]; [|reflexivity].
    destruct (findContainer m store); [|reflexivity].
    cbn [fst]. destruct rem as [rem|], add as [add|]; reflexivity. }
  destruct (String.eqb_spec name ActionType.LIST_ITEMS) as [->|H2];
    [reflexivity|].
  destruct (String.eqb_spec name ActionType.CLEAR_CONTAINER) as [->|H3];
    [reflexivity|].
  destruct (String.eqb_spec name ActionType.DELETE_CONTAINER) as [->|H4];
    [reflexivity|].
  cbn [orb].
  destruct (String.eqb_spec name ActionType.CREATE_CONTAINER) as [->|H5];
    [destruct its; reflexivity|].
  f_equal. unfold executeAction. cbn [AIAction.action].
  apply String.eqb_neq in H1, H2, H3, H4, H5. rewrite H1, H2, H3, H4, H5.
  destruct (name =? ActionType.LIST_ALL_CONTAINERS)%string; [reflexivity|].
  destruct (name =? ActionType.UNKNOWN)%string; reflexivity.
Qed.

Lemma executeParsed_shape (store : list Container.t) (v : JSON) :
  outcomeShape store (executeParsed store v).
Proof.
  unfold executeParsed.
  repeat match goal with
         | |- context [match ?x with _ => _ end] => destruct x
         end;
    constructor.
Qed.

Lemma executeParsed_updater (store : list Container.t) (v : JSON)
    (u : list Container.t -> list Container.t) :
  (exists t, executeParsed store v = Returns (Some u, t))
  \/ executeParsed store v = Throws (Some u) ->
  updaterOf store u.
Proof.
  destruct (executeParsed_shape store v) as [| |a|a|];
    intros [[t H]|H]; try discriminate; injection H as H;
    apply executeAction_updater with (a := a); trivial.
  now rewrite H.
Qed.

End ReplyFacts.

(* ================================================================== *)
(** * The conversation controller                                      *)
(* ================================================================== *)

Section ControllerFacts.

(** The cases of the list of outstanding calls: none, one of either kind,
    or more. *)
Ltac by_calls calls :=
  destruct calls as [|[? ?|?] [|? ?]].

Lemma step_keeps_oneCallAtMost (st st' : AppState) (ev : Event) :
  oneCallAtMost st -> step st ev = Some st' -> oneCallAtMost st'.
Proof.
  unfold oneCallAtMost. intros Hinv Hstep.
  destruct st as [cs ms busy cam pend calls]. cbn in Hinv.
  destruct ev as [text now|k reply now| | |cid now|k its now]; cbn in Hstep.
  - injection Hstep as <-. unfold handleSendMessage. cbn.
    destruct (negb (JS.truthy (JS.trim text)) || busy) eqn:G; cbn; trivial.
    apply orb_false_iff in G. destruct G as [_ ->].
    by_calls calls; try discriminate; try tauto;
      try (destruct Hinv; discriminate).
    cbn. tauto.
  - destruct calls as [|[c p|c] [|? ?]]; try tauto;
      destruct k as [|[|k]]; cbn in Hstep; try discriminate.
    unfold resumeSendMessage in Hstep. cbn in Hstep.
    destruct (executeParsed c (interpretUserCommand reply)) as [[q t]|q|];
      try discriminate; injection Hstep as <-; reflexivity.
  - injection Hstep as <-. exact Hinv.
  - injection Hstep as <-. exact Hinv.
  - unfold captureEnabled in Hstep. cbn in Hstep.
    destruct (cam && negb busy && match cs with [] => false | _ :: _ => true end)
      eqn:G; injection Hstep as <-; trivial.
    apply andb_true_iff in G. destruct G as [G _].
    apply andb_true_iff in G. destruct G as [_ G].
    apply negb_true_iff in G. subst busy.
    by_calls calls; try discriminate; try tauto;
      try (destruct Hinv; discriminate).
    reflexivity.
  - destruct calls as [|[c p|c] [|? ?]]; try tauto;
      destruct k as [|[|k]]; cbn in Hstep; try discriminate.
    injection Hstep as <-. unfold resumeCameraScan.
    destruct its; reflexivity.
Qed.

Lemma reachable_oneCallAtMost (st : AppState) :
  Reachable st -> oneCallAtMost st.
Proof.
  induction 1 as [|st ev st' _ IH Hstep]; [reflexivity|].
  now apply (step_keeps_oneCallAtMost st st' ev).
Qed.

Lemma idle_has_no_call (st : AppState) :
  Reachable st -> isProcessing st = false -> outstanding st = [].
Proof.
  intros Hr Hidle. apply reachable_oneCallAtMost in Hr.
  unfold oneCallAtMost in Hr.
  destruct (outstanding st) as [|[c p|c] [|? ?]]; trivial;
    try contradiction;
    repeat match goal with H : _ /\ _ |- _ => destruct H end;
    congruence.
Qed.

Lemma replaceLast_placeholder (prev : list Message.t) (u t m : Message.t) :
  replaceLast (prev ++ [u; t]) m = (prev ++ [u; m])%list.
Proof.
  unfold replaceLast.
  change (prev ++ [u; t])%list with (prev ++ [u] ++ [t])%list.
  rewrite app_assoc, removelast_last, <- app_assoc. reflexivity.
Qed.

(** A turn from an idle state: the send is accepted, and the settling of
    its call runs the rest of the handler on the values just closed
    over. *)
Lemma turn_of_idle_state (st : AppState) (messageText : string) (now : Z)
    (reply : Reply) (now' : Z) :
  outstanding st = [] -> isProcessing st = false ->
  JS.truthy (JS.trim messageText) = true ->
  step (handleSendMessage st messageText now)
       (InterpretSettles 0 reply now')
  = resumeSendMessage
      (mkApp (containers st)
             (messages st ++ [userMessage messageText now;
                              Message.mk (JS.numToString (now + 1)) ai "..." true])
             true (isCameraOpen st) (pendingScannedItems st) [])
      (containers st) (pendingScannedItems st) reply now'.
Proof.
  intros Hcalls Hidle Htext. unfold handleSendMessage.
  rewrite Htext, Hidle, Hcalls. reflexivity.
Qed.

Lemma clearPending_same (p : option PendingScan.t) : clearPending p p = None.
Proof. now destruct p. Qed.

Lemma applyQueued_keeps_goodIds (store : list Container.t)
    (queued : option (list Container.t -> list Container.t)) :
  (forall u, queued = Some u -> updaterOf store u) ->
  goodIds store -> goodIds (applyQueued queued store).
Proof.
  intros Hq [Hnd Hpos]. destruct queued as [u|]; [|now split].
  specialize (Hq u eq_refl). split.
  - now apply updater_keeps_ids_unique.
  - now apply updater_keeps_ids_positive.
Qed.

Lemma step_keeps_goodIds (st st' : AppState) (ev : Event) :
  oneCallAtMost st -> goodIds (containers st) -> step st ev = Some st' ->
  goodIds (containers st').
Proof.
  unfold oneCallAtMost. intros Hinv Hgood Hstep.
  destruct st as [cs ms busy cam pend calls]. cbn in Hinv, Hgood.
  destruct ev as [text now|k reply now| | |cid now|k its now]; cbn in Hstep.
  - injection Hstep as <-. unfold handleSendMessage. cbn.
    now destruct (negb (JS.truthy (JS.trim text)) || busy).
  - destruct calls as [|[c p|c] [|? ?]]; try tauto;
      destruct k as [|[|k]]; cbn in Hstep; try discriminate.
    destruct Hinv as (_ & -> & _).
    unfold resumeSendMessage in Hstep. cbn in Hstep.
    destruct (executeParsed cs (interpretUserCommand reply))
      as [[q t]|q|] eqn:E; try discriminate; injection Hstep as <-; cbn;
      apply applyQueued_keeps_goodIds; trivial; intros u ->;
      apply (executeParsed_updater cs (interpretUserCommand reply)); eauto.
  - now injection Hstep as <-.
  - now injection Hstep as <-.
  - destruct (captureEnabled _); now injection Hstep as <-.
  - destruct calls as [|[c p|c] [|? ?]]; try tauto;
      destruct k as [|[|k]]; cbn in Hstep; try discriminate.
    injection Hstep as <-. unfold resumeCameraScan. now destruct its.
Qed.

(** In every state the component can reach, the ids of the store are
    positive and pairwise distinct. *)
Lemma reachable_goodIds (st : AppState) :
  Reachable st -> goodIds (containers st).
Proof.
  induction 1 as [|st ev st' Hr IH Hstep].
  - split; repeat constructor; simpl; intuition discriminate.
  - apply (step_keeps_goodIds st st' ev); trivial.
    now apply reachable_oneCallAtMost.
Qed.

(** A turn whose reply is a typed action runs [execute] on the store. *)
Lemma turn_with_typed_action (st : AppState) (messageText : string)
    (now : Z) (a : AIAction.t) (now' : Z) :
  Reachable st -> isProcessing st = false ->
  JS.truthy (JS.trim messageText) = true ->
  step (handleSendMessage st messageText now)
       (InterpretSettles 0 (Parsed (toJSON a)) now')
  = Some (mkApp (fst (execute (containers st) a))
                (messages st
                 ++ [userMessage messageText now;
                     aiMessage (snd (execute (containers st) a)) now'])
                false (isCameraOpen st) None []).
Proof.
  intros Hr Hidle Htext.
  rewrite turn_of_idle_state by (trivial; now apply idle_has_no_call).
  unfold resumeSendMessage. cbn [interpretUserCommand].
  rewrite executeParsed_toJSON.
  destruct (executeAction (containers st) a) as [q t] eqn:E.
  cbn [containers messages isCameraOpen pendingScannedItems outstanding].
  rewrite clearPending_same, replaceLast_placeholder.
  unfold execute, applyEffect. rewrite E. reflexivity.
Qed.

Lemma run_reachable (evs : list Event) (st st' : AppState) :
  Reachable st -> run st evs = Some st' -> Reachable st'.
Proof.
  revert st; induction evs as [|ev evs IH]; intros st Hr; simpl.
  - intros H. injection H as <-. exact Hr.
  - destruct (step st ev) as [st1|] eqn:E; [|discriminate].
    apply IH. now apply (Reachable_step st ev st1).
Qed.

(** A turn in which [executeAction] raises: the [catch] block. *)
Lemma turn_that_raises (st : AppState) (messageText : string) (now : Z)
    (reply : Reply) (now' : Z)
    (queued : option (list Container.t -> list Container.t)) :
  Reachable st -> isProcessing st = false ->
  JS.truthy (JS.trim messageText) = true ->
  executeParsed (containers st) (interpretUserCommand reply) = Throws queued ->
  step (handleSendMessage st messageText now) (InterpretSettles 0 reply now')
  = Some (mkApp (applyQueued queued (containers st))
                (messages st
                 ++ [userMessage messageText now; errorMessage now'])
                false (isCameraOpen st) None []).
Proof.
  intros Hr Hidle Htext Hthrows.
  rewrite turn_of_idle_state by (trivial; now apply idle_has_no_call).
  unfold resumeSendMessage. rewrite Hthrows.
  cbn [containers messages isCameraOpen pendingScannedItems outstanding].
  now rewrite clearPending_same, replaceLast_placeholder.
Qed.

(** The same for whatever [executeAction] comes to when it raises. *)
Lemma turn_that_raises_with (st : AppState) (messageText : string) (now : Z)
    (now' : Z) (queued : option Updater) :
  outstanding st = [] -> isProcessing st = false ->
  JS.truthy (JS.trim messageText) = true ->
  settleWith (handleSendMessage st messageText now) 0 (Raised queued) now'
  = Some match applyUpdate queued (containers st) with
         | Some store =>
             Rendered (mkApp store
                         (messages st
                          ++ [userMessage messageText now; errorMessage now'])
                         false (isCameraOpen st) None [])
         | None => RenderRaises
         end.
Proof.
  intros Hcalls Hidle Htext.
  unfold handleSendMessage. rewrite Htext, Hidle, Hcalls.
  cbn [negb orb app settleWith outstanding nth_error].
  unfold finishTurn, withoutCall.
  cbn [removeNth containers messages isCameraOpen pendingScannedItems
       outstanding].
  destruct (applyUpdate queued (containers st)) as [store|]; trivial.
  now rewrite clearPending_same, replaceLast_placeholder.
Qed.

Lemma settle_of_idle_state (st : AppState) (messageText : string) (now : Z)
    (reply : Reply) (now' : Z) (e : Execution) :
  outstanding st = [] -> isProcessing st = false ->
  JS.truthy (JS.trim messageText) = true ->
  executeValue (containers st) (interpretUserCommand reply) = Some e ->
  settle (handleSendMessage st messageText now) 0 reply now'
  = settleWith (handleSendMessage st messageText now) 0 e now'.
Proof.
  intros Hcalls Hidle Htext He.
  unfold handleSendMessage. rewrite Htext, Hidle, Hcalls.
  cbn [negb orb app settle outstanding nth_error]. now rewrite He.
Qed.

(** [settle] ends a turn as [step] does, on the replies [step] follows. *)
Lemma settle_step (st st' : AppState) (k : nat) (reply : Reply) (now : Z) :
  step st (InterpretSettles k reply now) = Some st' ->
  settle st k reply now = Some (Rendered st').
Proof.
  unfold step, settle, settleWith.
  destruct (nth_error (outstanding st) k) as [[cc cp|cid]|];
    try discriminate.
  unfold resumeSendMessage, executeValue.
  destruct (executeParsed cc (interpretUserCommand reply))
    as [[[u|] text]|[u|]|]; try discriminate;
    intros H; injection H as <-; reflexivity.
Qed.

(** UPDATE_ITEMS with [itemsToRemove] a text: [executeParsed] stops,
    [executeValue] follows the raise of line 74. *)
Lemma executeValue_removal_text (store : list Container.t) (n : Z)
    (s : string) (c : Container.t) :
  n <> 0 -> s <> EmptyString -> findContainer n store = Some c ->
  executeValue store
    (JObject [("action", JString "UPDATE_ITEMS");
              ("containerNumber", JNumber n);
              ("itemsToRemove", JString s)])
  = Some (Raised (Some (updateItemsByText n None))).
Proof.
  intros Hn Hs Hfind. destruct s as [|a s]; [now elim Hs|].
  set (v := JObject [("action", JString "UPDATE_ITEMS");
                     ("containerNumber", JNumber n);
                     ("itemsToRemove", JString (String a s))]).
  assert (getField "action" v = Some (JString ActionType.UPDATE_ITEMS))
    as Hname by reflexivity.
  assert (asNumber (getField "containerNumber" v) = Some (Some n))
    as Hnum by reflexivity.
  assert (asItems (getField "itemsToRemove" v) = Text (String a s))
    as Hrem by reflexivity.
  assert (asItems (getField "itemsToAdd" v) = Missing) as Hadd by reflexivity.
  assert (executeParsed store v = OutOfModel) as Hout.
  { unfold executeParsed. subst v. cbv iota.
    fold (UPDATE_ITEMS n None None) in *.
    rewrite Hname, Hnum, Hrem.
    change (ActionType.UPDATE_ITEMS =? ActionType.UPDATE_ITEMS)%string
      with true.
    cbv iota.
    change (AIAction.mk ActionType.UPDATE_ITEMS (Some n) None None None)
      with (UPDATE_ITEMS n None None).
    now rewrite (executeAction_UPDATE_found store n None None c). }
  unfold executeValue. rewrite Hout, Hname, Hnum, Hrem, Hadd.
  change (ActionType.UPDATE_ITEMS =? ActionType.UPDATE_ITEMS)%string
    with true.
  cbv iota. now rewrite (truthyNumber_nonzero n Hn), Hfind.
Qed.

Lemma updateItemsByText_raises (n : Z) (itemsToAdd : option (list string))
    (store : list Container.t) (c : Container.t) :
  findContainer n store = Some c -> Container.items c <> [] ->
  updateItemsByText n itemsToAdd store = None.
Proof.
  intros Hfind Hitems. unfold updateItemsByText.
  apply find_some in Hfind. destruct Hfind as [Hin Hid].
  assert (existsb (fun c => (Container.id c =? n)
                            && match Container.items c with
                               | [] => false
                               | _ :: _ => true
                               end) store = true) as ->; trivial.
  apply existsb_exists. exists c. split; trivial. rewrite Hid.
  now destruct (Container.items c).
Qed.

End ControllerFacts.

(* ================================================================== *)
(** * The properties of the specification                             *)
(* ================================================================== *)

(** ** C1 *)

(** C1, amended.  When the interpretation call fails (the request fails,
    or the reply is not JSON text), interpretUserCommand returns the
    UNKNOWN action and executing it returns the fixed text of UNKNOWN.  A
    reply that is JSON is returned as parsed, unchecked: when it is not
    null and does not name one of the seven actions, executing it leaves
    the store alone and returns the fallback text
    Sorry, I couldn't perform that action.; when it is null, executing it
    raises before anything is handed to the store, and handleSendMessage
    catches that and ends the turn with its error message. *)
Theorem interpretation_failure_yields_UNKNOWN_and_replies_are_unchecked :
  (interpretUserCommand Failed = unknownAction
   /\ forall store,
        executeParsed store (interpretUserCommand Failed)
        = Returns (None, didNotUnderstand))
  /\ (forall v, interpretUserCommand (Parsed v) = v)
  /\ (forall store v,
         v <> JNull ->
         (forall name, getField "action" v = Some (JString name) ->
                       isKnownAction name = false) ->
         executeParsed store (interpretUserCommand (Parsed v))
         = Returns (None, couldNotPerform))
  /\ (forall store,
         executeParsed store (interpretUserCommand (Parsed JNull))
         = Throws None)
  /\ (forall st messageText now now',
         Reachable st -> isProcessing st = false ->
         JS.truthy (JS.trim messageText) = true ->
         step (handleSendMessage st messageText now)
              (InterpretSettles 0 (Parsed JNull) now')
         = Some (mkApp (containers st)
                       (messages st
                        ++ [userMessage messageText now; errorMessage now'])
                       false (isCameraOpen st) None [])).
Proof.
  split; [split; [reflexivity | intros store; reflexivity]|].
  split; [reflexivity|]. split; [|split; [reflexivity|]].
  - intros store v Hnull Hname. now apply executeParsed_unknown_name.
  - intros st messageText now now' Hr Hidle Htext.
    now apply (turn_that_raises st messageText now (Parsed JNull) now' None).
Qed.

(** ** C2 *)

(** C2.  Executing CREATE_CONTAINER appends a container whose id is one
    more than the largest id of the store, or 1 when the store is empty;
    and the ids of the store stay pairwise distinct under every run of
    actions (CREATE_CONTAINER and DELETE_CONTAINER among them), as they
    are in the store the application starts with and so in every state
    the application can reach. *)
Theorem create_assigns_next_id_and_ids_stay_unique :
  (forall store its,
      fst (execute store (CREATE_CONTAINER its))
      = (store ++ [Container.mk (newContainerId store) (orEmpty its)])%list
      /\ (store = [] -> newContainerId store = 1)
      /\ (store <> [] ->
          exists m, In m (ids store)
                    /\ (forall i, In i (ids store) -> i <= m)
                    /\ newContainerId store = m + 1))
  /\ (forall store actions,
         NoDup (ids store) -> NoDup (ids (executeAll store actions)))
  /\ NoDup (ids seedContainers)
  /\ (forall st, Reachable st -> NoDup (ids (containers st))).
Proof.
  split; [|split; [|split]].
  - intros store its. split; [reflexivity|]. split.
    + now intros ->.
    + intros Hne. unfold newContainerId, ids.
      destruct store as [|c store]; [congruence|]. simpl.
      exists (JS.Math_max (Container.id c) (map Container.id store)).
      split; [apply Math_max_In|]. split; [|reflexivity].
      intros i Hi. now apply Math_max_upper.
  - intros store actions. revert store.
    induction actions as [|a actions IH]; intros store Hnd; simpl; trivial.
    apply IH. now apply execute_keeps_ids_unique.
  - repeat constructor; simpl; intuition discriminate.
  - intros st Hr. now apply reachable_goodIds.
Qed.

(** ** C3 *)

(** C3.  UPDATE_ITEMS on a container of the store keeps, of the items the
    container had, exactly those that no removal term hits (a term hits
    an item when the term in lower case occurs in the item in lower
    case), in their order; the items to add, when there are any, follow
    and the whole is de-duplicated.  So an item is in the new list
    exactly when it was in the old one and is not hit, or is added.
    Every other container is left as it was.  Lower case is what
    [String.prototype.toLowerCase] of the engine gives, whatever the
    letters: a term hits an item exactly when line 62 finds it with
    [includes], and it hits every item that the engine lowers to the
    same text as the term.  The term tent removes the item Tent Stand. *)
Theorem update_removes_exactly_the_matching_items :
  (forall store n add rem i c,
      n <> 0 -> nth_error store i = Some c -> Container.id c = n ->
      exists (keep : string -> bool) (newItems : list string),
        (forall item, keep item = false <-> removedBy (orEmpty rem) item)
        /\ nth_error (fst (execute store (UPDATE_ITEMS n add rem))) i
           = Some (Container.mk n newItems)
        /\ newItems
           = (if nonEmpty add
              then JS.newSet (filter keep (Container.items c) ++ orEmpty add)
              else filter keep (Container.items c))
        /\ (forall item,
               In item newItems
               <-> (In item (Container.items c)
                    /\ ~ removedBy (orEmpty rem) item)
                   \/ In item (orEmpty add)))
  /\ (forall store n add rem i c,
         n <> 0 -> nth_error store i = Some c -> Container.id c <> n ->
         nth_error (fst (execute store (UPDATE_ITEMS n add rem))) i = Some c)
  /\ (forall terms item,
         removedBy terms item
         <-> exists term,
               In term terms
               /\ JS.includes (JS.toLowerCase item) (JS.toLowerCase term)
                  = true)
  /\ (forall term item, sameIgnoringCase term item -> removedBy [term] item)
  /\ removedBy ["tent"] "Tent Stand"
  /\ execute [Container.mk 1 ["Tent Stand"; "Skis"]]
       (UPDATE_ITEMS 1 None (Some ["tent"]))
     = ([Container.mk 1 ["Skis"]],
        "OK, I've removed " ++ JS.dquote ++ "tent" ++ JS.dquote
        ++ " from container 1.").
Proof.
  split; [|split; [|split; [|split; [|split]]]].
  - intros store n add rem i c Hn Hnth Hid.
    exists (survives (orEmpty rem)). eexists.
    split; [intros item; apply survives_spec|].
    split; [|split; [reflexivity|]].
    + rewrite (execute_UPDATE_nth store n add rem i c Hn); trivial.
      * rewrite Hid, Z.eqb_refl. now rewrite updatedItems_filter.
      * exists c. split; trivial. eapply nth_error_In; eauto.
    + intros item.
      assert (survives (orEmpty rem) item = true
              <-> ~ removedBy (orEmpty rem) item) as Hkeep.
      { rewrite <- survives_spec.
        destruct (survives (orEmpty rem) item); split; congruence. }
      destruct add as [[|a add]|]; cbn [nonEmpty orEmpty].
      * rewrite filter_In, Hkeep. simpl. tauto.
      * rewrite newSet_In, in_app_iff, filter_In, Hkeep. tauto.
      * rewrite filter_In, Hkeep. simpl. tauto.
  - intros store n add rem i c Hn Hnth Hid.
    destruct (findContainer n store) as [c0|] eqn:Hfind.
    + rewrite (execute_UPDATE_nth store n add rem i c Hn); trivial.
      * apply Z.eqb_neq in Hid. now rewrite Hid.
      * apply find_some in Hfind. destruct Hfind as [Hin E].
        apply Z.eqb_eq in E. now exists c0.
    + unfold execute, applyEffect.
      now rewrite (executeAction_UPDATE_missing store n add rem Hn Hfind).
  - intros terms item. unfold removedBy.
    split; intros [term [Hin H]]; exists term; split; trivial;
      now apply includes_spec.
  - intros term item Hsame. exists term. split; [now left|].
    unfold sameIgnoringCase in Hsame. rewrite Hsame. apply occursIn_refl.
  - exists "tent". split; [now left|]. lower_ascii.
    now exists EmptyString, " stand".
  - cbv [execute applyEffect executeAction UPDATE_ITEMS updateItemsIn
         updatedItems survives]. cbn. lower_ascii. reflexivity.
Qed.

(** ** C4 *)

(** C4, amended.  For every container whose item list holds no item
    twice, adding items that are all in the list already, with nothing to
    remove, leaves the container as it is; so adding Skis to a container
    that holds just Skis yields just Skis.  De-duplication keeps the
    first occurrence of every item, in the order of the combined list:
    the result has no item twice, has the items of the combined list, and
    is its head followed by the de-duplicated rest without the head. *)
Theorem adding_present_items_changes_nothing :
  (forall store n add rem i c,
      n <> 0 -> nth_error store i = Some c -> Container.id c = n ->
      nonEmpty rem = false ->
      NoDup (Container.items c) ->
      (forall item, In item add -> In item (Container.items c)) ->
      nth_error (fst (execute store (UPDATE_ITEMS n (Some add) rem))) i
      = Some c)
  /\ fst (execute [Container.mk 1 ["Skis"]] (UPDATE_ITEMS 1 (Some ["Skis"]) (Some [])))
     = [Container.mk 1 ["Skis"]]
  /\ (forall store n add rem i c,
         n <> 0 -> nth_error store i = Some c -> Container.id c = n ->
         nonEmpty rem = false -> nonEmpty (Some add) = true ->
         nth_error (fst (execute store (UPDATE_ITEMS n (Some add) rem))) i
         = Some (Container.mk n (JS.newSet (Container.items c ++ add))))
  /\ (forall l, NoDup (JS.newSet l))
  /\ (forall l item, In item (JS.newSet l) <-> In item l)
  /\ JS.newSet [] = []
  /\ (forall item l,
         JS.newSet (item :: l)
         = item :: filter (fun other => negb (other =? item)%string)
                     (JS.newSet l)).
Proof.
  assert (forall rem old, nonEmpty rem = false ->
                          filter (survives (orEmpty rem)) old = old) as Hrem.
  { intros [[|r rem]|] old H; try discriminate; apply filter_survives_nil. }
  split; [|split; [|split; [|split; [|split; [|split]]]]].
  - intros store n add rem i c Hn Hnth Hid Hrem0 Hnd Hin.
    rewrite (execute_UPDATE_nth store n (Some add) rem i c Hn); trivial.
    + rewrite Hid, Z.eqb_refl, updatedItems_filter, (Hrem rem _ Hrem0).
      destruct c as [cid cits]. simpl in *. subst cid. f_equal. f_equal.
      destruct add as [|a add]; simpl; trivial.
      now apply newSet_present.
    + exists c. split; trivial. eapply nth_error_In; eauto.
  - reflexivity.
  - intros store n add rem i c Hn Hnth Hid Hrem0 Hadd.
    rewrite (execute_UPDATE_nth store n (Some add) rem i c Hn); trivial.
    + now rewrite Hid, Z.eqb_refl, updatedItems_filter, (Hrem rem _ Hrem0), Hadd.
    + exists c. split; trivial. eapply nth_error_In; eauto.
  - apply newSet_NoDup.
  - apply newSet_In.
  - reflexivity.
  - apply newSet_cons.
Qed.

(** ** C5 *)

(** C5, amended.  For every turn in which executeAction raises, the
    catch block of handleSendMessage clears the pending scan and puts a
    system-sender error message in the place of the loading message, and
    nothing is rolled back: the update that executeAction had handed to
    setContainers before it raised is applied all the same.  So the
    store is exactly as before the turn when nothing had been handed
    over, as with the reply null, and it is changed by the update
    otherwise.  When the update itself cannot be applied (itemsToRemove
    given as a text, for a container that has items), or leaves a
    container whose items are no list (CREATE_CONTAINER with items given
    as a text), the render raises, which no handler catches, and the
    error message is not shown.

    The first part is about every raising call of executeAction,
    whatever it had handed over, in a turn started while no call is
    outstanding, as is the case in every reachable state that is not
    processing; the second and the third link it to the replies of the
    interpreter and to the steps of the controller; the rest are the
    replies named above. *)
Theorem exception_in_a_turn_clears_the_scan_and_reports_an_error :
  (forall st messageText now now' queued,
      outstanding st = [] -> isProcessing st = false ->
      JS.truthy (JS.trim messageText) = true ->
      settleWith (handleSendMessage st messageText now) 0 (Raised queued) now'
      = Some match applyUpdate queued (containers st) with
             | Some store =>
                 Rendered (mkApp store
                             (messages st
                              ++ [userMessage messageText now;
                                  errorMessage now'])
                             false (isCameraOpen st) None [])
             | None => RenderRaises
             end)
  /\ (forall st messageText now reply now' queued,
         outstanding st = [] -> isProcessing st = false ->
         JS.truthy (JS.trim messageText) = true ->
         executeValue (containers st) (interpretUserCommand reply)
         = Some (Raised queued) ->
         settle (handleSendMessage st messageText now) 0 reply now'
         = settleWith (handleSendMessage st messageText now) 0
             (Raised queued) now')
  /\ (forall st k reply now st',
         step st (InterpretSettles k reply now) = Some st' ->
         settle st k reply now = Some (Rendered st'))
  /\ (forall st, Reachable st -> isProcessing st = false ->
                 outstanding st = [])
  /\ (forall st messageText now reply now' queued,
         Reachable st -> isProcessing st = false ->
         JS.truthy (JS.trim messageText) = true ->
         executeParsed (containers st) (interpretUserCommand reply)
         = Throws queued ->
         exists st',
           step (handleSendMessage st messageText now)
                (InterpretSettles 0 reply now') = Some st'
           /\ pendingScannedItems st' = None
           /\ messages st'
              = (messages st
                 ++ [userMessage messageText now; errorMessage now'])%list
           /\ isProcessing st' = false
           /\ containers st' = applyQueued queued (containers st))
  /\ (forall st messageText now now',
         Reachable st -> isProcessing st = false ->
         JS.truthy (JS.trim messageText) = true ->
         exists st',
           step (handleSendMessage st messageText now)
                (InterpretSettles 0 (Parsed JNull) now') = Some st'
           /\ pendingScannedItems st' = None
           /\ messages st'
              = (messages st
                 ++ [userMessage messageText now; errorMessage now'])%list
           /\ isProcessing st' = false
           /\ containers st' = containers st)
  /\ (forall st messageText now now' n s c,
         outstanding st = [] -> isProcessing st = false ->
         JS.truthy (JS.trim messageText) = true ->
         n <> 0 -> s <> EmptyString ->
         findContainer n (containers st) = Some c ->
         Container.items c <> [] ->
         settle (handleSendMessage st messageText now) 0
           (Parsed (JObject [("action", JString "UPDATE_ITEMS");
                             ("containerNumber", JNumber n);
                             ("itemsToRemove", JString s)])) now'
         = Some RenderRaises)
  /\ (forall st messageText now now' s,
         outstanding st = [] -> isProcessing st = false ->
         JS.truthy (JS.trim messageText) = true ->
         s <> EmptyString ->
         settle (handleSendMessage st messageText now) 0
           (Parsed (JObject [("action", JString "CREATE_CONTAINER");
                             ("items", JString s)])) now'
         = Some RenderRaises).
Proof.
  split; [|split; [|split; [|split; [|split; [|split; [|split]]]]]].
  - intros st messageText now now' queued Hcalls Hidle Htext.
    now apply turn_that_raises_with.
  - intros st messageText now reply now' queued Hcalls Hidle Htext He.
    now apply settle_of_idle_state.
  - intros st k reply now st' Hstep. now apply settle_step.
  - intros st Hr Hidle. now apply idle_has_no_call.
  - intros st messageText now reply now' queued Hr Hidle Htext Hthrows.
    eexists. split.
    + apply (turn_that_raises st messageText now reply now' queued); trivial.
    + repeat split.
  - intros st messageText now now' Hr Hidle Htext.
    eexists. split.
    + apply (turn_that_raises st messageText now (Parsed JNull) now' None);
        trivial.
    + repeat split.
  - intros st messageText now now' n s c Hcalls Hidle Htext Hn Hs Hfind
      Hitems.
    rewrite (settle_of_idle_state st messageText now _ now'
               (Raised (Some (updateItemsByText n None)))); trivial.
    + rewrite turn_that_raises_with by trivial.
      cbn [applyUpdate].
      now rewrite (updateItemsByText_raises n None (containers st) c).
    + now apply (executeValue_removal_text (containers st) n s c).
  - intros st messageText now now' s Hcalls Hidle Htext Hs.
    rewrite (settle_of_idle_state st messageText now _ now'
               (Raised (Some (fun _ => None)))); trivial.
    + now rewrite turn_that_raises_with by trivial.
    + destruct s as [|a s]; [now elim Hs|]. reflexivity.
Qed.

(** ** C6 *)

(** C6.  In every state the component can reach in which a pending scan
    is set and no turn is in flight, the next message that is sent
    consumes the scan: when its turn ends the pending scan is cleared,
    whatever the interpreter replied: when the interpretation failed,
    when executeAction raised, and when it returned. *)
Theorem pending_scan_is_cleared_by_the_next_turn :
  forall st scan messageText now now',
    Reachable st -> pendingScannedItems st = Some scan ->
    isProcessing st = false -> JS.truthy (JS.trim messageText) = true ->
    let inFlight := handleSendMessage st messageText now in
    pendingScannedItems inFlight = Some scan
    /\ (forall reply st',
           step inFlight (InterpretSettles 0 reply now') = Some st' ->
           pendingScannedItems st' = None /\ isProcessing st' = false)
    /\ (forall reply,
           executeParsed (containers st) (interpretUserCommand reply)
           <> OutOfModel ->
           exists st', step inFlight (InterpretSettles 0 reply now') = Some st')
    /\ (exists st', step inFlight (InterpretSettles 0 Failed now') = Some st')
    /\ (exists st',
           step inFlight (InterpretSettles 0 (Parsed JNull) now') = Some st').
Proof.
  intros st scan messageText now now' Hr Hscan Hidle Htext inFlight.
  pose proof (idle_has_no_call st Hr Hidle) as Hcalls.
  assert (forall reply,
             executeParsed (containers st) (interpretUserCommand reply)
             <> OutOfModel ->
             exists st', step inFlight (InterpretSettles 0 reply now') = Some st')
    as Htotal.
  { intros reply Hmodel. unfold inFlight.
    rewrite turn_of_idle_state by trivial. unfold resumeSendMessage.
    destruct (executeParsed (containers st) (interpretUserCommand reply))
      as [[q t]|q|]; [eexists; reflexivity | eexists; reflexivity | congruence]. }
  split; [|split; [|split; [|split]]].
  - unfold inFlight, handleSendMessage. now rewrite Htext, Hidle.
  - intros reply st'. unfold inFlight.
    rewrite turn_of_idle_state by trivial. unfold resumeSendMessage.
    destruct (executeParsed (containers st) (interpretUserCommand reply))
      as [[q t]|q|]; intros H; try discriminate; injection H as <-; cbn;
      (split; [apply clearPending_same | reflexivity]).
  - exact Htotal.
  - apply Htotal. cbn. discriminate.
  - apply Htotal. cbn. discriminate.
Qed.

(** ** C7 *)

(** C7.  While a turn is in flight ([isProcessing] set), sending a message
    changes nothing at all: no message is appended, no call to the
    interpreter is added, the store and the pending scan stay.  In every
    state the component can reach at most one call is outstanding, and
    one is outstanding exactly when [isProcessing] is set. *)
Theorem send_while_processing_is_ignored_and_turns_never_overlap :
  (forall st messageText now,
      isProcessing st = true -> handleSendMessage st messageText now = st)
  /\ (forall st, Reachable st -> (List.length (outstanding st) <= 1)%nat)
  /\ (forall st, Reachable st ->
                 (isProcessing st = true <-> outstanding st <> [])).
Proof.
  split; [|split].
  - intros st messageText now Hbusy. unfold handleSendMessage.
    now rewrite Hbusy, orb_true_r.
  - intros st Hr. apply reachable_oneCallAtMost in Hr.
    unfold oneCallAtMost in Hr.
    destruct (outstanding st) as [|c [|? ?]]; simpl; try lia.
    destruct c; contradiction.
  - intros st Hr. apply reachable_oneCallAtMost in Hr.
    unfold oneCallAtMost in Hr.
    destruct (outstanding st) as [|[c p|c] [|? ?]]; try contradiction;
      repeat match goal with H : _ /\ _ |- _ => destruct H end;
      split; congruence.
Qed.

(** ** C8 *)

(** C8.  LIST_ALL_CONTAINERS on the empty store returns exactly
    You don't have any containers yet. and on the store that holds one
    container, with id 1 and items A and B, a text in which
    Container #1: A, B occurs.  It changes no store. *)
Theorem list_all_containers_texts :
  execute [] LIST_ALL_CONTAINERS = ([], "You don't have any containers yet.")
  /\ occursIn "Container #1: A, B"
       (snd (execute [Container.mk 1 ["A"; "B"]] LIST_ALL_CONTAINERS))
  /\ snd (execute [Container.mk 1 ["A"; "B"]] LIST_ALL_CONTAINERS)
     = "Here's what's in all your containers:" ++ JS.newline ++ JS.newline
       ++ "Container #1: A, B"
  /\ forall store, fst (execute store LIST_ALL_CONTAINERS) = store.
Proof.
  split; [reflexivity|]. split; [|split; [reflexivity|]].
  - apply (list_all_describes_every_container
             [Container.mk 1 ["A"; "B"]] (Container.mk 1 ["A"; "B"])).
    now left.
  - intros store. unfold execute, applyEffect. cbn [fst].
    rewrite executeAction_LIST_ALL. now destruct store.
Qed.

(** ** C9 *)

(** C9.  On every store whose ids are positive, as the ids of the
    application are, CREATE_CONTAINER with the one item X appends a
    container with the new id and just that item, and LIST_ITEMS with
    the new id then answers that this container contains X and nothing
    else, and changes nothing. *)
Theorem create_then_list_items_reports_the_item :
  forall store item,
    Forall (fun i => 0 < i) (ids store) ->
    let newId := newContainerId store in
    let created := execute store (CREATE_CONTAINER (Some [item])) in
    fst created = (store ++ [Container.mk newId [item]])%list
    /\ snd created
       = "I've created container " ++ JS.numToString newId ++ " and added "
         ++ JS.dquote ++ item ++ JS.dquote ++ "."
    /\ execute (fst created) (LIST_ITEMS newId)
       = (fst created,
          "Container " ++ JS.numToString newId ++ " contains: " ++ item ++ ".").
Proof.
  intros store item Hpos newId created.
  split; [reflexivity|]. split.
  - unfold created, execute. cbn [snd]. rewrite executeAction_CREATE.
    cbn [snd nonEmpty orEmpty]. unfold JS.join. simpl String.concat.
    now rewrite !append_assoc.
  - assert (fst created = appendContainer newId [item] store) as -> by reflexivity.
    unfold execute, applyEffect. rewrite executeAction_LIST_ITEMS.
    rewrite truthyNumber_nonzero
      by (pose proof (newContainerId_positive store Hpos); subst newId; lia).
    rewrite findContainer_appended by apply newContainerId_fresh.
    reflexivity.
Qed.

(** ** C10 *)

(** C10, amended.  For every store and every container number N other
    than 0 that no container of the store has, CLEAR_CONTAINER with N
    leaves the store as it is and still returns
    Container N has been cleared., whereas UPDATE_ITEMS, LIST_ITEMS and
    DELETE_CONTAINER with N answer that they could not find the
    container. *)
Theorem clear_of_a_missing_container_is_confirmed :
  forall store n,
    n <> 0 -> ~ In n (ids store) ->
    execute store (CLEAR_CONTAINER n)
    = (store, "Container " ++ JS.numToString n ++ " has been cleared.")
    /\ (forall add rem,
           execute store (UPDATE_ITEMS n add rem)
           = (store,
              "Sorry, I couldn't find container " ++ JS.numToString n ++ "."))
    /\ execute store (LIST_ITEMS n)
       = (store, "Sorry, I couldn't find container " ++ JS.numToString n ++ ".")
    /\ execute store (DELETE_CONTAINER n)
       = (store,
          "Sorry, I couldn't find container #" ++ JS.numToString n
          ++ " to delete.").
Proof.
  intros store n Hn Habsent. unfold execute, applyEffect.
  split; [|split; [|split]].
  - rewrite executeAction_CLEAR, truthyNumber_nonzero by trivial.
    cbn [fst snd]. now rewrite clearIn_absent.
  - intros add rem.
    now rewrite executeAction_UPDATE_missing
      by (trivial; now apply findContainer_absent).
  - rewrite executeAction_LIST_ITEMS, truthyNumber_nonzero by trivial.
    now rewrite findContainer_absent.
  - rewrite executeAction_DELETE, truthyNumber_nonzero by trivial.
    now rewrite existsb_absent.
Qed.

(* ================================================================== *)
(** * Further properties of the executor                               *)
(* ================================================================== *)

Section ExecutorFacts.

Lemma truthyNumber_Some (x : option Z) (n : Z) :
  truthyNumber x = Some n -> x = Some n /\ n <> 0.
Proof.
  destruct x as [[|p|p]|]; simpl; intros H; try discriminate;
    injection H as <-; split; congruence.
Qed.

(** The store after UPDATE_ITEMS. *)
Lemma execute_UPDATE_fst (store : list Container.t) (n : Z)
    (add rem : option (list string)) :
  fst (execute store (UPDATE_ITEMS n add rem))
  = match truthyNumber (Some n) with
    | Some m =>
        match findContainer m store with
        | Some _ => updateItemsIn m add rem store
        | None => store
        end
    | None => store
    end.
Proof.
  unfold execute, applyEffect, executeAction, UPDATE_ITEMS.
  cbn [AIAction.action AIAction.containerNumber AIAction.itemsToAdd
       AIAction.itemsToRemove].
  change (ActionType.UPDATE_ITEMS =? ActionType.UPDATE_ITEMS)%string with true.
  cbv iota. destruct (truthyNumber (Some n)) as [m|]; [|reflexivity].
  destruct (findContainer m store); reflexivity.
Qed.

(** The answer of UPDATE_ITEMS on a container that is there. *)
Lemma execute_UPDATE_snd (store : list Container.t) (n : Z)
    (add rem : option (list string)) (c : Container.t) :
  n <> 0 -> findContainer n store = Some c ->
  snd (execute store (UPDATE_ITEMS n add rem))
  = match nonEmpty add, nonEmpty rem with
    | true, true =>
        "OK, I've added " ++ JS.dquote ++ JS.join ", " (orEmpty add)
        ++ JS.dquote ++ " to and removed " ++ JS.dquote
        ++ JS.join ", " (orEmpty rem) ++ JS.dquote ++ " from container "
        ++ JS.numToString n ++ "."
    | true, false =>
        "OK, I've added " ++ JS.dquote ++ JS.join ", " (orEmpty add)
        ++ JS.dquote ++ " to container " ++ JS.numToString n ++ "."
    | false, true =>
        "OK, I've removed " ++ JS.dquote ++ JS.join ", " (orEmpty rem)
        ++ JS.dquote ++ " from container " ++ JS.numToString n ++ "."
    | false, false =>
        "OK, no changes were made to container " ++ JS.numToString n ++ "."
    end.
Proof.
  intros Hn Hfind. unfold execute, executeAction, UPDATE_ITEMS.
  cbn [AIAction.action AIAction.containerNumber AIAction.itemsToAdd
       AIAction.itemsToRemove snd].
  change (ActionType.UPDATE_ITEMS =? ActionType.UPDATE_ITEMS)%string with true.
  cbv iota. rewrite truthyNumber_nonzero by trivial. rewrite Hfind.
  destruct add as [[|a add]|], rem as [[|r rem]|]; cbn [nonEmpty snd];
    try reflexivity; cbn [JS.truthy append andb]; cbv iota;
    rewrite ?append_assoc; reflexivity.
Qed.

(** Looking a container up after an update that keeps the ids. *)
Lemma findContainer_map (f : Container.t -> Container.t) (n : Z)
    (store : list Container.t) :
  (forall c, Container.id (f c) = Container.id c) ->
  findContainer n (map f store) = option_map f (findContainer n store).
Proof.
  intros Hid. unfold findContainer.
  induction store as [|c store IH]; simpl; trivial.
  rewrite Hid. now destruct (Container.id c =? n).
Qed.

Lemma findContainer_id (n : Z) (store : list Container.t) (c : Container.t) :
  findContainer n store = Some c -> Container.id c = n /\ In c store.
Proof.
  unfold findContainer. intros H. apply find_some in H.
  destruct H as [Hin E]. apply Z.eqb_eq in E. now split.
Qed.

Lemma findContainer_present (n : Z) (store : list Container.t) :
  In n (ids store) -> exists c, findContainer n store = Some c.
Proof.
  unfold ids. intros H. apply in_map_iff in H. destruct H as [c [E Hin]].
  now apply (findContainer_In n store c).
Qed.

Lemma deleteIn_absent (n : Z) (store : list Container.t) :
  ~ In n (ids store) -> deleteIn n store = store.
Proof.
  unfold deleteIn, ids. induction store as [|c store IH]; simpl; trivial.
  intros H. destruct (Container.id c =? n) eqn:E.
  - apply Z.eqb_eq in E. tauto.
  - simpl. f_equal. apply IH. tauto.
Qed.

Lemma deleteIn_split (n : Z) (store : list Container.t) :
  NoDup (ids store) -> In n (ids store) ->
  exists before c after,
    store = (before ++ c :: after)%list /\ Container.id c = n
    /\ deleteIn n store = (before ++ after)%list.
Proof.
  induction store as [|c0 store IH]; simpl; [tauto|].
  intros Hnd Hin. inversion Hnd as [|? ? Hfresh Hnd']; subst.
  destruct (Z.eq_dec (Container.id c0) n) as [E|E].
  - exists [], c0, store. repeat split; trivial. simpl.
    rewrite (proj2 (Z.eqb_eq _ _) E). simpl.
    apply deleteIn_absent. now rewrite <- E.
  - destruct Hin as [Hin|Hin]; [congruence|].
    destruct (IH Hnd' Hin) as (before & c & after & -> & Hc & Hdel).
    exists (c0 :: before), c, after. repeat split; trivial.
    unfold deleteIn in *. simpl.
    rewrite (proj2 (Z.eqb_neq _ _) E). simpl. now rewrite Hdel.
Qed.

Lemma existsb_present (n : Z) (store : list Container.t) :
  In n (ids store) -> existsb (fun c => Container.id c =? n) store = true.
Proof.
  unfold ids. intros H. apply in_map_iff in H. destruct H as [c [E Hin]].
  apply existsb_exists. exists c. split; trivial. now apply Z.eqb_eq.
Qed.

Lemma deleteIn_removes (n : Z) (store : list Container.t) :
  ~ In n (ids (deleteIn n store)).
Proof.
  rewrite ids_deleteIn. intros H. apply filter_In in H.
  destruct H as [_ H]. now rewrite Z.eqb_refl in H.
Qed.

End ExecutorFacts.

(** X1.  DELETE_CONTAINER with the id of a container of the store (ids
    being distinct) takes exactly that container out and keeps the others
    in their order; it confirms the deletion, and a LIST_ITEMS with the
    same number afterwards does not find the container. *)
Theorem delete_takes_out_exactly_the_named_container :
  forall store n,
    n <> 0 -> NoDup (ids store) -> In n (ids store) ->
    let deleted := execute store (DELETE_CONTAINER n) in
    (exists before c after,
        store = (before ++ c :: after)%list /\ Container.id c = n
        /\ fst deleted = (before ++ after)%list)
    /\ snd deleted
       = "OK, I have deleted container #" ++ JS.numToString n ++ "."
    /\ ~ In n (ids (fst deleted))
    /\ execute (fst deleted) (LIST_ITEMS n)
       = (fst deleted,
          "Sorry, I couldn't find container " ++ JS.numToString n ++ ".").
Proof.
  intros store n Hn Hnd Hin deleted.
  assert (deleted
          = (deleteIn n store,
             "OK, I have deleted container #" ++ JS.numToString n ++ "."))
    as ->.
  { unfold deleted, execute, applyEffect.
    rewrite executeAction_DELETE, truthyNumber_nonzero by trivial.
    now rewrite existsb_present. }
  cbn [fst snd]. split; [now apply deleteIn_split|]. split; [reflexivity|].
  split; [apply deleteIn_removes|].
  unfold execute, applyEffect.
  rewrite executeAction_LIST_ITEMS, truthyNumber_nonzero by trivial.
  now rewrite findContainer_absent by apply deleteIn_removes.
Qed.

(** X2.  CLEAR_CONTAINER with the number of a container of the store
    empties the item list of that container and keeps its id, leaves
    every other container as it was, and a LIST_ITEMS with the same
    number afterwards answers that the container is empty. *)
Theorem clear_empties_the_container_and_list_items_says_so :
  forall store n,
    n <> 0 -> In n (ids store) ->
    let cleared := execute store (CLEAR_CONTAINER n) in
    (forall i c,
        nth_error store i = Some c ->
        nth_error (fst cleared) i
        = Some (if Container.id c =? n then Container.mk n [] else c))
    /\ snd cleared = "Container " ++ JS.numToString n ++ " has been cleared."
    /\ execute (fst cleared) (LIST_ITEMS n)
       = (fst cleared,
          "Container " ++ JS.numToString n ++ " contains: It's empty.").
Proof.
  intros store n Hn Hin cleared.
  assert (cleared
          = (clearIn n store,
             "Container " ++ JS.numToString n ++ " has been cleared."))
    as ->.
  { unfold cleared, execute, applyEffect.
    now rewrite executeAction_CLEAR, truthyNumber_nonzero by trivial. }
  cbn [fst snd]. split; [|split; [reflexivity|]].
  - intros i c Hnth. unfold clearIn. rewrite nth_error_map, Hnth. simpl.
    destruct (Container.id c =? n) eqn:E; trivial.
    apply Z.eqb_eq in E. now rewrite E.
  - destruct (findContainer_present n store Hin) as [c Hfind].
    destruct (findContainer_id n store c Hfind) as [Hid _].
    unfold execute, applyEffect.
    rewrite executeAction_LIST_ITEMS, truthyNumber_nonzero by trivial.
    unfold clearIn. rewrite findContainer_map, Hfind
      by (intros c0; now destruct (Container.id c0 =? n)).
    simpl. rewrite Hid, Z.eqb_refl. reflexivity.
Qed.

(** X3.  After UPDATE_ITEMS on a container of the store, LIST_ITEMS with
    the same number reports the item list that the update left: the
    items joined by commas, or It's empty when none is left. *)
Theorem list_items_after_update_reports_the_updated_list :
  forall store n add rem c,
    n <> 0 -> findContainer n store = Some c ->
    let updated := fst (execute store (UPDATE_ITEMS n add rem)) in
    let newItems := updatedItems (Container.items c) add rem in
    findContainer n updated = Some (Container.mk n newItems)
    /\ execute updated (LIST_ITEMS n)
       = (updated,
          "Container " ++ JS.numToString n ++ " contains: "
          ++ match newItems with
             | _ :: _ => JS.join ", " newItems
             | [] => "It's empty"
             end
          ++ ".").
Proof.
  intros store n add rem c Hn Hfind updated newItems.
  destruct (findContainer_id n store c Hfind) as [Hid _].
  assert (findContainer n updated = Some (Container.mk n newItems)) as Hnew.
  { unfold updated. rewrite execute_UPDATE_fst, truthyNumber_nonzero, Hfind
      by trivial.
    unfold updateItemsIn. rewrite findContainer_map, Hfind
      by (intros c0; now destruct (Container.id c0 =? n)).
    simpl. now rewrite Hid, Z.eqb_refl. }
  split; [exact Hnew|].
  unfold execute, applyEffect.
  rewrite executeAction_LIST_ITEMS, truthyNumber_nonzero, Hnew by trivial.
  reflexivity.
Qed.

(** X4.  On a store with positive ids, deleting the container that
    CREATE_CONTAINER has just made gives back the store of before, so the
    next CREATE_CONTAINER assigns the same id again. *)
Theorem create_then_delete_restores_the_store :
  forall store its,
    Forall (fun i => 0 < i) (ids store) ->
    let newId := newContainerId store in
    let created := fst (execute store (CREATE_CONTAINER its)) in
    execute created (DELETE_CONTAINER newId)
    = (store, "OK, I have deleted container #" ++ JS.numToString newId ++ ".")
    /\ newContainerId (fst (execute created (DELETE_CONTAINER newId))) = newId.
Proof.
  intros store its Hpos newId created.
  assert (execute created (DELETE_CONTAINER newId)
          = (store,
             "OK, I have deleted container #" ++ JS.numToString newId ++ "."))
    as H.
  { assert (created = appendContainer newId (orEmpty its) store) as ->
      by reflexivity.
    pose proof (newContainerId_positive store Hpos) as Hnew.
    unfold execute, applyEffect.
    rewrite executeAction_DELETE, truthyNumber_nonzero by (subst newId; lia).
    assert (existsb (fun c => Container.id c =? newId)
              (appendContainer newId (orEmpty its) store) = true) as ->.
    { unfold appendContainer. rewrite existsb_app. simpl.
      now rewrite Z.eqb_refl, orb_true_r. }
    cbn [fst snd]. f_equal.
    unfold appendContainer, deleteIn. rewrite filter_app. simpl.
    rewrite Z.eqb_refl. simpl. rewrite app_nil_r.
    apply deleteIn_absent, newContainerId_fresh. }
  split; [exact H|]. now rewrite H.
Qed.

(** X5.  Ids are not assigned once and for all: on a store with positive
    ids, after the container with the highest id has been deleted,
    CREATE_CONTAINER assigns an id that is not above the deleted one. *)
Theorem id_of_the_deleted_highest_container_can_come_back :
  forall store n,
    Forall (fun i => 0 < i) (ids store) ->
    In n (ids store) -> (forall i, In i (ids store) -> i <= n) ->
    newContainerId (fst (execute store (DELETE_CONTAINER n))) <= n.
Proof.
  intros store n Hpos Hin Hmax.
  assert (0 < n) as Hn by (rewrite Forall_forall in Hpos; now apply Hpos).
  assert (fst (execute store (DELETE_CONTAINER n)) = deleteIn n store) as ->.
  { unfold execute, applyEffect.
    rewrite executeAction_DELETE, truthyNumber_nonzero by lia.
    now rewrite existsb_present. }
  unfold newContainerId.
  destruct (map Container.id (deleteIn n store)) as [|x xs] eqn:E; [lia|].
  pose proof (Math_max_In xs x) as Hm. rewrite <- E in Hm.
  fold (ids (deleteIn n store)) in Hm. rewrite ids_deleteIn in Hm.
  apply filter_In in Hm. destruct Hm as [Hm Hneq].
  apply negb_true_iff, Z.eqb_neq in Hneq. apply Hmax in Hm. lia.
Qed.

Section RemovalFacts.

Lemma includes_empty (s : string) : JS.includes s EmptyString = true.
Proof. destruct s; reflexivity. Qed.

Lemma survives_empty_term (terms : list string) (item : string) :
  In EmptyString terms -> survives terms item = false.
Proof.
  intros Hin. apply survives_spec. exists EmptyString. split; trivial.
  lower_ascii. apply includes_spec, includes_empty.
Qed.

Lemma filter_none {A : Type} (f : A -> bool) (l : list A) :
  (forall x, In x l -> f x = false) -> filter f l = [].
Proof.
  induction l as [|x l IH]; simpl; trivial. intros H.
  rewrite (H x (or_introl eq_refl)). apply IH. intros y Hy. apply H. now right.
Qed.

Lemma filter_all {A : Type} (f : A -> bool) (l : list A) :
  (forall x, In x l -> f x = true) -> filter f l = l.
Proof.
  induction l as [|x l IH]; simpl; trivial. intros H.
  rewrite (H x (or_introl eq_refl)). f_equal. apply IH.
  intros y Hy. apply H. now right.
Qed.

Lemma survives_ignoring_case (terms terms' : list string) (item item' : string) :
  Forall2 sameIgnoringCase terms terms' -> sameIgnoringCase item item' ->
  survives terms item = survives terms' item'.
Proof.
  unfold survives, sameIgnoringCase. intros Hterms Hitem. f_equal.
  induction Hterms as [|t t' terms terms' Ht _ IH]; simpl; trivial.
  now rewrite IH, Ht, Hitem.
Qed.

Lemma survives_keep (terms : list string) (item : string) :
  survives terms item = true <-> ~ removedBy terms item.
Proof.
  rewrite <- survives_spec. destruct (survives terms item); split; congruence.
Qed.

(** Updating twice with the same lists, when no added item is hit by the
    removal terms. *)
Lemma updatedItems_twice (old : list string) (add rem : option (list string)) :
  (forall item, In item (orEmpty add) -> ~ removedBy (orEmpty rem) item) ->
  updatedItems (updatedItems old add rem) add rem = updatedItems old add rem.
Proof.
  intros Hadd. rewrite !updatedItems_filter.
  destruct (nonEmpty add) eqn:E.
  - set (once := JS.newSet (filter (survives (orEmpty rem)) old ++ orEmpty add)).
    assert (filter (survives (orEmpty rem)) once = once) as ->.
    { apply filter_all. intros item Hin. unfold once in Hin.
      apply newSet_In, in_app_iff in Hin. destruct Hin as [Hin|Hin].
      - now apply filter_In in Hin.
      - now apply survives_keep, Hadd. }
    apply newSet_present; [apply newSet_NoDup|].
    intros item Hin. apply newSet_In, in_or_app. now right.
  - apply filter_all. intros item Hin. now apply filter_In in Hin.
Qed.

Lemma updateItemsIn_ext (n : Z) (add rem add' rem' : option (list string))
    (store : list Container.t) :
  (forall old, updatedItems old add rem = updatedItems old add' rem') ->
  updateItemsIn n add rem store = updateItemsIn n add' rem' store.
Proof.
  intros H. unfold updateItemsIn. apply map_ext. intros c. now rewrite H.
Qed.

Lemma updateItemsIn_fixed (n : Z) (add rem : option (list string))
    (store : list Container.t) :
  (forall c, In c store -> Container.id c = n ->
             updatedItems (Container.items c) add rem = Container.items c) ->
  updateItemsIn n add rem store = store.
Proof.
  unfold updateItemsIn. induction store as [|c store IH]; simpl; trivial.
  intros H. rewrite IH by (intros c0 Hin; apply H; now right). f_equal.
  destruct (Container.id c =? n) eqn:E; trivial.
  apply Z.eqb_eq in E. rewrite (H c (or_introl eq_refl) E). now destruct c.
Qed.

End RemovalFacts.

(** X6.  A removal list that holds the empty string hits every item,
    since the empty string occurs in every text: UPDATE_ITEMS with such a
    list and nothing to add leaves the store that CLEAR_CONTAINER leaves,
    and with items to add the container ends up with just these,
    de-duplicated. *)
Theorem empty_removal_term_removes_every_item :
  forall store n rem,
    n <> 0 -> In n (ids store) -> In EmptyString rem ->
    fst (execute store (UPDATE_ITEMS n None (Some rem)))
    = fst (execute store (CLEAR_CONTAINER n))
    /\ forall add i c,
        nth_error store i = Some c -> Container.id c = n ->
        nth_error (fst (execute store (UPDATE_ITEMS n (Some add) (Some rem)))) i
        = Some (Container.mk n (JS.newSet add)).
Proof.
  intros store n rem Hn Hin Hempty.
  destruct (findContainer_present n store Hin) as [c0 Hfind].
  assert (forall old, filter (survives (orEmpty (Some rem))) old = []) as Hnone.
  { intros old. apply filter_none. intros item _.
    now apply survives_empty_term. }
  split.
  - rewrite execute_UPDATE_fst, truthyNumber_nonzero, Hfind by trivial.
    unfold execute, applyEffect.
    rewrite executeAction_CLEAR, truthyNumber_nonzero by trivial.
    cbn [fst]. unfold updateItemsIn, clearIn. apply map_ext. intros c.
    now rewrite updatedItems_filter, Hnone.
  - intros add i c Hnth Hid.
    rewrite execute_UPDATE_fst, truthyNumber_nonzero, Hfind by trivial.
    unfold updateItemsIn. rewrite nth_error_map, Hnth. simpl.
    rewrite Hid, Z.eqb_refl, updatedItems_filter, Hnone.
    destruct add; reflexivity.
Qed.

(** X7.  Removal does not look at the case of letters: two removal lists
    whose terms differ in case at most leave the same store, and so does
    a list and the same list in lower case. *)
Theorem removal_ignores_the_case_of_the_terms :
  (forall store n add rem rem',
      Forall2 sameIgnoringCase rem rem' ->
      fst (execute store (UPDATE_ITEMS n add (Some rem)))
      = fst (execute store (UPDATE_ITEMS n add (Some rem'))))
  /\ (forall store n add rem,
         fst (execute store (UPDATE_ITEMS n add (Some (map JS.toLowerCase rem))))
         = fst (execute store (UPDATE_ITEMS n add (Some rem)))).
Proof.
  assert (forall store n add rem rem',
             Forall2 sameIgnoringCase rem rem' ->
             fst (execute store (UPDATE_ITEMS n add (Some rem)))
             = fst (execute store (UPDATE_ITEMS n add (Some rem')))) as H.
  { intros store n add rem rem' Hsame. rewrite !execute_UPDATE_fst.
    destruct (truthyNumber (Some n)) as [m|]; trivial.
    destruct (findContainer m store); trivial.
    apply updateItemsIn_ext. intros old. rewrite !updatedItems_filter.
    cbn [orEmpty].
    assert (filter (survives rem) old = filter (survives rem') old) as ->; trivial.
    apply filter_ext. intros item. now apply survives_ignoring_case. }
  split; [exact H|].
  intros store n add rem. apply H.
  induction rem as [|r rem IH]; simpl; constructor; trivial.
  apply JS.toLowerCase_idempotent.
Qed.

(** X8.  Adding is exact about case and keeps the order: when the items
    of a container followed by the items to add hold no text twice,
    UPDATE_ITEMS with nothing to remove appends the items to add to the
    list, in their order. *)
Theorem adding_new_items_appends_them_in_order :
  forall store n add rem i c,
    n <> 0 -> nth_error store i = Some c -> Container.id c = n ->
    nonEmpty rem = false ->
    NoDup (Container.items c ++ add) ->
    nth_error (fst (execute store (UPDATE_ITEMS n (Some add) rem))) i
    = Some (Container.mk n (Container.items c ++ add)).
Proof.
  intros store n add rem i c Hn Hnth Hid Hrem Hnd.
  destruct (findContainer_In n store c (nth_error_In _ _ Hnth) Hid)
    as [c0 Hfind].
  rewrite execute_UPDATE_fst, truthyNumber_nonzero, Hfind by trivial.
  unfold updateItemsIn. rewrite nth_error_map, Hnth. simpl.
  rewrite Hid, Z.eqb_refl, updatedItems_filter.
  assert (filter (survives (orEmpty rem)) (Container.items c)
          = Container.items c) as ->.
  { destruct rem as [[|r rem]|]; try discriminate; apply filter_survives_nil. }
  destruct add as [|a add]; cbn [nonEmpty orEmpty].
  - now rewrite app_nil_r.
  - now rewrite newSet_fresh.
Qed.

(** X9.  Repeating an UPDATE_ITEMS changes nothing, provided none of the
    items it adds is hit by its own removal terms: the store after the
    second execution is the store after the first. *)
Theorem repeating_an_update_changes_nothing :
  forall store n add rem,
    (forall item, In item (orEmpty add) -> ~ removedBy (orEmpty rem) item) ->
    let once := fst (execute store (UPDATE_ITEMS n add rem)) in
    fst (execute once (UPDATE_ITEMS n add rem)) = once.
Proof.
  intros store n add rem Hadd once. unfold once.
  rewrite !execute_UPDATE_fst.
  destruct (truthyNumber (Some n)) as [m|]; trivial.
  destruct (findContainer m store) as [c|] eqn:Hfind.
  - assert (exists c', findContainer m (updateItemsIn m add rem store)
                       = Some c') as [c' ->].
    { unfold updateItemsIn. rewrite findContainer_map, Hfind
        by (intros c0; now destruct (Container.id c0 =? m)).
      now eexists. }
    apply updateItemsIn_fixed. intros c0 Hin Hid.
    unfold updateItemsIn in Hin. apply in_map_iff in Hin.
    destruct Hin as [c1 [E Hin]]. subst c0.
    destruct (Container.id c1 =? m) eqn:E1.
    + cbn [Container.items]. now apply updatedItems_twice.
    + apply Z.eqb_neq in E1. congruence.
  - now rewrite Hfind.
Qed.

(** X10.  The answer of UPDATE_ITEMS is made from the action alone: when
    the removal terms hit no item of the container and nothing is to be
    added, the store stays as it is and the answer still says that the
    terms were removed. *)
Theorem removal_is_confirmed_even_when_nothing_was_hit :
  forall store n rem,
    n <> 0 -> In n (ids store) -> rem <> [] ->
    (forall c item,
        In c store -> Container.id c = n -> In item (Container.items c) ->
        ~ removedBy rem item) ->
    execute store (UPDATE_ITEMS n None (Some rem))
    = (store,
       "OK, I've removed " ++ JS.dquote ++ JS.join ", " rem ++ JS.dquote
       ++ " from container " ++ JS.numToString n ++ ".").
Proof.
  intros store n rem Hn Hin Hrem Hmiss.
  destruct (findContainer_present n store Hin) as [c0 Hfind].
  rewrite (surjective_pairing (execute store (UPDATE_ITEMS n None (Some rem)))).
  rewrite (execute_UPDATE_snd store n None (Some rem) c0 Hn Hfind).
  rewrite execute_UPDATE_fst, truthyNumber_nonzero, Hfind by trivial.
  f_equal.
  - apply updateItemsIn_fixed. intros c Hc Hid.
    rewrite updatedItems_filter. cbn [nonEmpty orEmpty].
    apply filter_all. intros item Hitem.
    apply survives_keep. now apply (Hmiss c).
  - destruct rem; [congruence | reflexivity].
Qed.

Section FrameFacts.

(** What the updater of an action is made from. *)
Lemma executeAction_updater_of_action (store : list Container.t)
    (a : AIAction.t) (u : list Container.t -> list Container.t) :
  fst (executeAction store a) = Some u ->
  (AIAction.action a = ActionType.CREATE_CONTAINER
   /\ u = appendContainer (newContainerId store) (orEmpty (AIAction.items a)))
  \/ exists n,
       AIAction.containerNumber a = Some n /\ n <> 0
       /\ ((AIAction.action a = ActionType.UPDATE_ITEMS
            /\ In n (ids store)
            /\ u = updateItemsIn n (AIAction.itemsToAdd a)
                     (AIAction.itemsToRemove a))
           \/ (AIAction.action a = ActionType.CLEAR_CONTAINER
               /\ u = clearIn n)
           \/ (AIAction.action a = ActionType.DELETE_CONTAINER
               /\ In n (ids store) /\ u = deleteIn n)).
Proof.
  unfold executeAction.
  destruct (String.eqb_spec (AIAction.action a) ActionType.UPDATE_ITEMS)
    as [E|_].
  { destruct (truthyNumber (AIAction.containerNumber a)) as [n|] eqn:Hn;
      [|discriminate].
    apply truthyNumber_Some in Hn. destruct Hn as [Hn Hn0].
    destruct (findContainer n store) as [c|] eqn:Hfind; [|discriminate].
    cbn [fst]. intros H. injection H as <-. right. exists n.
    repeat split; trivial. left. repeat split; trivial.
    destruct (findContainer_id n store c Hfind) as [<- Hin].
    now apply in_map. }
  destruct (String.eqb_spec (AIAction.action a) ActionType.LIST_ITEMS)
    as [_|_].
  { destruct (truthyNumber (AIAction.containerNumber a)); [|discriminate].
    destruct (findContainer z store); discriminate. }
  destruct (String.eqb_spec (AIAction.action a) ActionType.LIST_ALL_CONTAINERS)
    as [_|_].
  { destruct store; discriminate. }
  destruct (String.eqb_spec (AIAction.action a) ActionType.CLEAR_CONTAINER)
    as [E|_].
  { destruct (truthyNumber (AIAction.containerNumber a)) as [n|] eqn:Hn;
      [|discriminate].
    apply truthyNumber_Some in Hn. destruct Hn as [Hn Hn0].
    cbn [fst]. intros H. injection H as <-. right. exists n.
    repeat split; trivial. right. left. now split. }
  destruct (String.eqb_spec (AIAction.action a) ActionType.CREATE_CONTAINER)
    as [E|_].
  { cbn [fst]. intros H. injection H as <-. left. now split. }
  destruct (String.eqb_spec (AIAction.action a) ActionType.DELETE_CONTAINER)
    as [E|_].
  { destruct (truthyNumber (AIAction.containerNumber a)) as [n|] eqn:Hn;
      [|discriminate].
    apply truthyNumber_Some in Hn. destruct Hn as [Hn Hn0].
    destruct (existsb (fun c => Container.id c =? n) store) eqn:Hex;
      [|discriminate].
    cbn [fst]. intros H. injection H as <-. right. exists n.
    repeat split; trivial. right. right. repeat split; trivial.
    apply existsb_exists in Hex. destruct Hex as [c [Hin Hc]].
    apply Z.eqb_eq in Hc. subst n. now apply in_map. }
  destruct (AIAction.action a =? ActionType.UNKNOWN)%string; discriminate.
Qed.

Lemma In_map_other (f : Container.t -> Container.t) (n : Z)
    (store : list Container.t) (c : Container.t) :
  (forall c0, Container.id c0 <> n -> f c0 = c0) ->
  In c store -> Container.id c <> n -> In c (map f store).
Proof.
  intros Hf Hin Hid. apply in_map_iff. exists c. split; trivial. now apply Hf.
Qed.

End FrameFacts.

(** X11.  No action touches a container whose id is not the container
    number of the action: such a container of the store is in the store
    afterwards, unchanged. *)
Theorem actions_leave_the_other_containers_alone :
  forall store a c,
    In c store ->
    AIAction.containerNumber a <> Some (Container.id c) ->
    In c (fst (execute store a)).
Proof.
  intros store a c Hin Hother. unfold execute, applyEffect. cbn [fst].
  destruct (fst (executeAction store a)) as [u|] eqn:E; trivial.
  apply executeAction_updater_of_action in E.
  destruct E as [[_ ->]|[n [Hn [_ [[_ [_ ->]]|[[_ ->]|[_ [_ ->]]]]]]]].
  - unfold appendContainer. apply in_or_app. now left.
  - apply (In_map_other _ n); trivial; [|congruence].
    intros c0 H. apply Z.eqb_neq in H. now rewrite H.
  - apply (In_map_other _ n); trivial; [|congruence].
    intros c0 H. apply Z.eqb_neq in H. now rewrite H.
  - unfold deleteIn. apply filter_In. split; trivial.
    apply negb_true_iff, Z.eqb_neq. congruence.
Qed.

(** X12.  The store changes only under four actions: when executing an
    action leaves a store that differs from the one before, the action is
    CREATE_CONTAINER, or it is UPDATE_ITEMS, CLEAR_CONTAINER or
    DELETE_CONTAINER with a container number that is not 0 and is the id
    of a container of the store. *)
Theorem only_four_actions_change_the_store :
  forall store a,
    fst (execute store a) <> store ->
    AIAction.action a = ActionType.CREATE_CONTAINER
    \/ exists n,
         AIAction.containerNumber a = Some n /\ n <> 0 /\ In n (ids store)
         /\ (AIAction.action a = ActionType.UPDATE_ITEMS
             \/ AIAction.action a = ActionType.CLEAR_CONTAINER
             \/ AIAction.action a = ActionType.DELETE_CONTAINER).
Proof.
  intros store a Hchanged. unfold execute, applyEffect in Hchanged.
  cbn [fst] in Hchanged.
  destruct (fst (executeAction store a)) as [u|] eqn:E; [|congruence].
  apply executeAction_updater_of_action in E.
  destruct E as [[E _]|[n [Hn [Hn0 [[E [Hin _]]|[[E ->]|[E [Hin _]]]]]]]].
  - now left.
  - right. exists n. tauto.
  - right. exists n. repeat split; trivial; [|tauto].
    destruct (in_dec Z.eq_dec n (ids store)) as [Hin|Hout]; trivial.
    elim Hchanged. now apply clearIn_absent.
  - right. exists n. tauto.
Qed.

(* ================================================================== *)
(** * Further properties of the conversation controller                *)
(* ================================================================== *)

(** X13.  In every state the component can reach, the ids of the
    containers are at least 1, and the id that CREATE_CONTAINER would
    assign next is above all of them. *)
Theorem reachable_ids_are_positive_and_below_the_next_id :
  forall st i,
    Reachable st -> In i (ids (containers st)) ->
    1 <= i < newContainerId (containers st).
Proof.
  intros st i Hr Hin. destruct (reachable_goodIds st Hr) as [_ Hpos].
  rewrite Forall_forall in Hpos. specialize (Hpos i Hin).
  pose proof (newContainerId_above (containers st) i Hin). lia.
Qed.

(** X14.  The store changes only when an interpretation call settles:
    sending a message, opening and closing the camera, capturing an image
    and the settling of a scan all leave the containers as they are. *)
Theorem only_a_settled_interpretation_changes_the_store :
  forall st ev st',
    step st ev = Some st' ->
    containers st' <> containers st ->
    exists k reply now, ev = InterpretSettles k reply now.
Proof.
  intros st ev st' Hstep Hchanged.
  destruct ev as [text now|k reply now| | |cid now|k its now];
    cbn in Hstep; try (now eauto); exfalso; apply Hchanged.
  - injection Hstep as <-. unfold handleSendMessage.
    now destruct (negb (JS.truthy (JS.trim text)) || isProcessing st).
  - now injection Hstep as <-.
  - now injection Hstep as <-.
  - destruct (captureEnabled st); now injection Hstep as <-.
  - destruct (nth_error (outstanding st) k) as [[c p|c]|]; try discriminate.
    injection Hstep as <-. unfold resumeCameraScan. now destruct its.
Qed.

(** A camera scan from capture to result. *)
Lemma camera_scan_run :
  forall st containerId now items now',
    Reachable st -> captureEnabled st = true ->
    exists st' reply,
      run st [Capture containerId now; ScanSettles 0 items now'] = Some st'
      /\ containers st' = containers st
      /\ isCameraOpen st' = false /\ isProcessing st' = false
      /\ outstanding st' = []
      /\ messages st' = (messages st ++ [reply])%list
      /\ Message.sender reply = ai /\ Message.isLoading reply = false
      /\ pendingScannedItems st'
         = match items with
           | _ :: _ => Some (PendingScan.mk containerId items)
           | [] => pendingScannedItems st
           end.
Proof.
  intros st containerId now items now' Hr Hen.
  assert (isProcessing st = false) as Hidle.
  { unfold captureEnabled in Hen. apply andb_true_iff in Hen.
    destruct Hen as [Hen _]. apply andb_true_iff in Hen.
    destruct Hen as [_ Hen]. now apply negb_true_iff in Hen. }
  pose proof (idle_has_no_call st Hr Hidle) as Hcalls.
  cbn [run step]. rewrite Hen. unfold handleCameraScan.
  cbn [outstanding]. rewrite Hcalls. cbn [app nth_error].
  unfold resumeCameraScan, withoutCall.
  cbn [containers messages isProcessing isCameraOpen pendingScannedItems
       outstanding removeNth].
  destruct items as [|item items]; eexists; eexists;
    (split; [reflexivity|]);
    cbn [containers messages isProcessing isCameraOpen pendingScannedItems
         outstanding];
    repeat split; unfold replaceLast; rewrite ?removelast_last; reflexivity.
Qed.

(** X15.  A camera scan from capture to result: it closes the camera,
    leaves the store alone and puts one message of the assistant in the
    place of its loading message.  When items were found they become the
    pending scan for the chosen container; when none was found the
    pending scan stays what it was, so an earlier scan that was not yet
    consumed remains pending. *)
Theorem camera_scan_sets_the_pending_scan_only_when_items_were_found :
  forall st containerId now items now',
    Reachable st -> captureEnabled st = true ->
    exists st' reply,
      run st [Capture containerId now; ScanSettles 0 items now'] = Some st'
      /\ containers st' = containers st
      /\ isCameraOpen st' = false /\ isProcessing st' = false
      /\ outstanding st' = []
      /\ messages st' = (messages st ++ [reply])%list
      /\ Message.sender reply = ai /\ Message.isLoading reply = false
      /\ pendingScannedItems st'
         = match items with
           | _ :: _ => Some (PendingScan.mk containerId items)
           | [] => pendingScannedItems st
           end.
Proof. exact camera_scan_run. Qed.

(** X16.  The image analysis fails softly.  When the image call fails,
    or its reply is null, or the reply has no items, or has items that
    are falsy, [analyzeImageOfBinContents] returns the empty list; when
    the reply has an array of strings as items it returns that array.
    After an empty result the scan ends with the message of the
    assistant that no item could be identified, and the pending scan and
    the store are as before. *)
Theorem image_analysis_fails_softly :
  analyzeImageOfBinContents Failed = Some []
  /\ analyzeImageOfBinContents (Parsed JNull) = Some []
  /\ (forall result,
         getField "items" result = None ->
         analyzeImageOfBinContents (Parsed result) = Some [])
  /\ (forall result v,
         getField "items" result = Some v -> truthyValue v = false ->
         analyzeImageOfBinContents (Parsed result) = Some [])
  /\ (forall fields l,
         lookup "items" fields = Some (JArray (map JString l)) ->
         analyzeImageOfBinContents (Parsed (JObject fields)) = Some l)
  /\ (forall st containerId reply now,
         analyzeImageOfBinContents reply = Some [] ->
         settleCameraScan st containerId reply now
         = Some (mkApp (containers st)
                   (replaceLast (messages st)
                      (aiMessage
                         ("I couldn't identify any distinct items in container #"
                          ++ JS.numToString containerId
                          ++ ", so I left it as is.") now))
                   false (isCameraOpen st) (pendingScannedItems st)
                   (outstanding st))).
Proof.
  split; [reflexivity|]. split; [reflexivity|].
  split; [|split; [|split]].
  - intros result H. unfold analyzeImageOfBinContents. rewrite H.
    now destruct result.
  - intros result v H Hv. unfold analyzeImageOfBinContents. rewrite H, Hv.
    now destruct result.
  - intros fields l H. unfold analyzeImageOfBinContents, getField.
    rewrite H. cbn [truthyValue]. apply asStrings_strings.
  - intros st containerId reply now H. unfold settleCameraScan.
    now rewrite H.
Qed.

Section TranscriptFacts.

Lemma replaceLast_last (prev : list Message.t) (m r : Message.t) :
  replaceLast (prev ++ [m]) r = (prev ++ [r])%list.
Proof. unfold replaceLast. now rewrite removelast_last. Qed.

Lemma step_keeps_placeholderLast (st st' : AppState) (ev : Event) :
  oneCallAtMost st -> placeholderLast st -> step st ev = Some st' ->
  placeholderLast st'.
Proof.
  unfold oneCallAtMost, placeholderLast. intros Hinv Hph Hstep.
  destruct st as [cs ms busy cam pend calls]. cbn in Hinv, Hph.
  assert (forall r, Message.isLoading r = false ->
                    calls <> [] -> Forall notLoading (replaceLast ms r)) as Hsettle.
  { intros r Hr Hcalls.
    assert (busy = true) as ->.
    { destruct calls as [|[c p|c] [|? ?]]; try tauto; try contradiction;
        repeat match goal with H : _ /\ _ |- _ => destruct H end; trivial. }
    destruct Hph as (prev & m & -> & _ & Hprev).
    rewrite replaceLast_last. apply Forall_app. split; trivial.
    now repeat constructor. }
  destruct ev as [text now|k reply now| | |cid now|k its now]; cbn in Hstep.
  - injection Hstep as <-. unfold handleSendMessage. cbn.
    destruct (negb (JS.truthy (JS.trim text)) || busy) eqn:G; cbn; trivial.
    apply orb_false_iff in G. destruct G as [_ ->].
    eexists (ms ++ [_])%list, _. split; [now rewrite <- app_assoc|].
    split; [reflexivity|]. apply Forall_app. split; trivial.
    now repeat constructor.
  - destruct (nth_error calls k) as [[c p|c]|] eqn:E; try discriminate.
    assert (calls <> []) as Hcalls by (intros ->; now destruct k).
    unfold resumeSendMessage in Hstep. cbn in Hstep.
    destruct (executeParsed c (interpretUserCommand reply)) as [[q t]|q|];
      try discriminate; injection Hstep as <-; cbn; now apply Hsettle.
  - injection Hstep as <-. exact Hph.
  - injection Hstep as <-. exact Hph.
  - unfold captureEnabled in Hstep. cbn in Hstep.
    destruct (cam && negb busy && match cs with [] => false | _ :: _ => true end)
      eqn:G; injection Hstep as <-; trivial.
    apply andb_true_iff in G. destruct G as [G _].
    apply andb_true_iff in G. destruct G as [_ G].
    apply negb_true_iff in G. subst busy. cbn.
    eexists ms, _. repeat split; trivial.
  - destruct (nth_error calls k) as [[c p|c]|] eqn:E; try discriminate.
    assert (calls <> []) as Hcalls by (intros ->; now destruct k).
    injection Hstep as <-. unfold resumeCameraScan.
    destruct its; cbn; now apply Hsettle.
Qed.

Lemma reachable_placeholderLast (st : AppState) :
  Reachable st -> placeholderLast st.
Proof.
  induction 1 as [|st ev st' Hr IH Hstep].
  - cbn. now repeat constructor.
  - apply (step_keeps_placeholderLast st st' ev); trivial.
    now apply reachable_oneCallAtMost.
Qed.

Lemma settled_all (ms : list Message.t) :
  Forall notLoading ms -> settledMessages ms = ms.
Proof.
  intros H. unfold settledMessages. apply filter_all.
  rewrite Forall_forall in H. intros m Hm. unfold notLoading in H.
  now rewrite (H m Hm).
Qed.

Lemma settled_placeholder (prev : list Message.t) (m : Message.t) :
  Forall notLoading prev -> Message.isLoading m = true ->
  settledMessages (prev ++ [m]) = prev.
Proof.
  intros Hprev Hm. unfold settledMessages. rewrite filter_app. simpl.
  rewrite Hm. simpl. rewrite app_nil_r. now apply settled_all.
Qed.

(** The settled transcript of a reachable state, by [isProcessing]. *)
Lemma settled_reachable (st : AppState) :
  Reachable st ->
  if isProcessing st
  then exists m, messages st = (settledMessages (messages st) ++ [m])%list
                 /\ Message.isLoading m = true
  else settledMessages (messages st) = messages st.
Proof.
  intros Hr. apply reachable_placeholderLast in Hr.
  unfold placeholderLast in Hr. destruct (isProcessing st).
  - destruct Hr as (prev & m & E & Hm & Hprev). exists m.
    rewrite E at 1. now rewrite E, settled_placeholder.
  - now apply settled_all.
Qed.

End TranscriptFacts.

(** X17.  In every state the component can reach, the transcript holds a
    loading message exactly while a turn is in flight, and then it is
    the last message and the only one: a settled answer always takes the
    place of the loading message and never of another message. *)
Theorem loading_message_is_last_and_only_while_processing :
  forall st,
    Reachable st ->
    (isProcessing st = false ->
     forall m, In m (messages st) -> Message.isLoading m = false)
    /\ (isProcessing st = true ->
        exists prev m,
          messages st = (prev ++ [m])%list /\ Message.isLoading m = true
          /\ forall m', In m' prev -> Message.isLoading m' = false).
Proof.
  intros st Hr. apply reachable_placeholderLast in Hr.
  unfold placeholderLast in Hr. split; intros Hbusy; rewrite Hbusy in Hr.
  - rewrite Forall_forall in Hr. exact Hr.
  - destruct Hr as (prev & m & E & Hm & Hprev). exists prev, m.
    rewrite Forall_forall in Hprev. now repeat split.
Qed.

(** X18.  The transcript only grows: whatever happens to a state the
    component can reach, the messages that are not loading messages stay
    where they are, and new messages come after them. *)
Theorem settled_transcript_is_append_only :
  forall st ev st',
    Reachable st -> step st ev = Some st' ->
    exists new,
      settledMessages (messages st')
      = (settledMessages (messages st) ++ new)%list.
Proof.
  intros st ev st' Hr Hstep.
  assert (Reachable st') as Hr' by (now apply (Reachable_step st ev st')).
  pose proof (settled_reachable st Hr) as Hs.
  pose proof (settled_reachable st' Hr') as Hs'.
  pose proof (reachable_oneCallAtMost st Hr) as Hinv.
  unfold oneCallAtMost in Hinv.
  assert (forall r, Message.isLoading r = false -> outstanding st <> [] ->
                    settledMessages (replaceLast (messages st) r)
                    = (settledMessages (messages st) ++ [r])%list) as Hsettle.
  { intros r Hload Hcalls.
    assert (isProcessing st = true) as Hbusy.
    { destruct (outstanding st) as [|[c p|c] [|? ?]]; try tauto;
        try contradiction;
        repeat match goal with H : _ /\ _ |- _ => destruct H end; trivial. }
    rewrite Hbusy in Hs. destruct Hs as (m & E & Hm).
    rewrite E at 1. rewrite replaceLast_last.
    unfold settledMessages at 1. rewrite filter_app. simpl. rewrite Hload.
    simpl. f_equal. fold (settledMessages (settledMessages (messages st))).
    unfold settledMessages. apply filter_all. intros x Hx.
    now apply filter_In in Hx. }
  destruct ev as [text now|k reply now| | |cid now|k its now]; cbn in Hstep.
  - injection Hstep as <-. unfold handleSendMessage.
    destruct (negb (JS.truthy (JS.trim text)) || isProcessing st) eqn:G.
    + exists []. now rewrite app_nil_r.
    + cbn [messages]. unfold settledMessages. rewrite filter_app.
      now eexists.
  - destruct (nth_error (outstanding st) k) as [[c p|c]|] eqn:E;
      try discriminate.
    assert (outstanding st <> []) as Hcalls
      by (intros H; rewrite H in E; now destruct k).
    unfold resumeSendMessage in Hstep. cbn in Hstep.
    destruct (executeParsed c (interpretUserCommand reply)) as [[q t]|q|];
      try discriminate; injection Hstep as <-; cbn [messages];
      eexists; now apply Hsettle.
  - injection Hstep as <-. exists []. now rewrite app_nil_r.
  - injection Hstep as <-. exists []. now rewrite app_nil_r.
  - destruct (captureEnabled st); injection Hstep as <-.
    + unfold handleCameraScan. cbn [messages]. unfold settledMessages.
      rewrite filter_app. now eexists.
    + exists []. now rewrite app_nil_r.
  - destruct (nth_error (outstanding st) k) as [[c p|c]|] eqn:E;
      try discriminate.
    assert (outstanding st <> []) as Hcalls
      by (intros H; rewrite H in E; now destruct k).
    injection Hstep as <-. unfold resumeCameraScan.
    destruct its; cbn [messages]; eexists; now apply Hsettle.
Qed.

(** X19.  A turn whose reply is a well-typed action runs that action on
    the store, whatever scan is pending: the store becomes the store
    that [executeAction] leaves, the user's text, untrimmed, and the
    answer of the assistant are appended in the place of the loading
    message, the pending scan is cleared and the component is idle
    again.  In particular a failed interpretation ends the turn with the
    text of UNKNOWN as a message of the assistant, on an unchanged
    store. *)
Theorem turn_with_a_typed_reply_runs_the_action :
  (forall st messageText now a now',
      Reachable st -> isProcessing st = false ->
      JS.truthy (JS.trim messageText) = true ->
      step (handleSendMessage st messageText now)
           (InterpretSettles 0 (Parsed (toJSON a)) now')
      = Some (mkApp (fst (execute (containers st) a))
                (messages st
                 ++ [userMessage messageText now;
                     aiMessage (snd (execute (containers st) a)) now'])
                false (isCameraOpen st) None []))
  /\ (forall st messageText now now',
         Reachable st -> isProcessing st = false ->
         JS.truthy (JS.trim messageText) = true ->
         step (handleSendMessage st messageText now)
              (InterpretSettles 0 Failed now')
         = Some (mkApp (containers st)
                   (messages st
                    ++ [userMessage messageText now;
                        aiMessage didNotUnderstand now'])
                   false (isCameraOpen st) None [])).
Proof.
  split.
  - intros st messageText now a now' Hr Hidle Htext.
    now apply turn_with_typed_action.
  - intros st messageText now now' Hr Hidle Htext.
    apply (turn_with_typed_action st messageText now
             (AIAction.mk ActionType.UNKNOWN None None None None) now');
      trivial.
Qed.

Section TrimFacts.

Lemma isSpace_spec (c : string) : JS.isSpace c = true <-> In c JS.whiteSpace.
Proof.
  unfold JS.isSpace. rewrite existsb_exists. split.
  - intros [x [Hin E]]. apply String.eqb_eq in E. now subst.
  - intros H. exists c. split; trivial. apply String.eqb_refl.
Qed.

(** White space only, as a test that can be run. *)
Lemma allSpaces_spec (s : string) :
  allSpaces s <-> forallb JS.isSpace (JS.codePoints s) = true.
Proof.
  unfold allSpaces. rewrite forallb_forall, Forall_forall.
  split; intros H c Hc; apply isSpace_spec; now apply H.
Qed.

(** The byte table behind [JS.whiteSpace]. *)
Lemma whiteSpace_bytes :
  JS.whiteSpace
  = map JS.bytes
      [ [9]; [10]; [11]; [12]; [13]; [32]; [194; 160]; [225; 154; 128];
        [226; 128; 128]; [226; 128; 129]; [226; 128; 130]; [226; 128; 131];
        [226; 128; 132]; [226; 128; 133]; [226; 128; 134]; [226; 128; 135];
        [226; 128; 136]; [226; 128; 137]; [226; 128; 138]; [226; 128; 168];
        [226; 128; 169]; [226; 128; 175]; [226; 129; 159]; [227; 128; 128];
        [239; 187; 191] ]%N.
Proof. reflexivity. Qed.

Lemma codePoints_nonempty (s : string) :
  Forall (fun c => c <> EmptyString) (JS.codePoints s).
Proof.
  induction s as [|c s IH]; [constructor|].
  cbn [JS.codePoints]. cbv zeta.
  destruct s as [|c' s']; [repeat constructor; discriminate|].
  destruct (JS.codePoints (String c' s')) as [|g gs];
    [repeat constructor; discriminate|].
  destruct (JS.isContinuation c').
  - inversion IH; subst. constructor; [discriminate | trivial].
  - constructor; [discriminate | trivial].
Qed.

Lemma dropSpaces_nil (l : list string) :
  JS.dropSpaces l = [] <-> forallb JS.isSpace l = true.
Proof.
  induction l as [|c l IH]; cbn [JS.dropSpaces forallb]; [tauto|].
  destruct (JS.isSpace c); cbn [andb]; [exact IH | split; discriminate].
Qed.

Lemma dropSpaces_head (l : list string) (c : string) (r : list string) :
  JS.dropSpaces l = c :: r -> JS.isSpace c = false.
Proof.
  induction l as [|c0 l IH]; cbn [JS.dropSpaces]; [discriminate|].
  destruct (JS.isSpace c0) eqn:E; trivial.
  intros H. injection H as <- _. exact E.
Qed.

Lemma dropSpaces_incl (l : list string) (c : string) :
  In c (JS.dropSpaces l) -> In c l.
Proof.
  induction l as [|c0 l IH]; cbn [JS.dropSpaces]; trivial.
  destruct (JS.isSpace c0); trivial. intros H. right. now apply IH.
Qed.

Lemma forallb_rev {A : Type} (f : A -> bool) (l : list A) :
  forallb f (rev l) = true <-> forallb f l = true.
Proof.
  rewrite !forallb_forall.
  split; intros H x Hx; apply H; [now apply in_rev in Hx | now apply in_rev].
Qed.

Lemma concat_empty (l : list string) :
  Forall (fun c => c <> EmptyString) l ->
  String.concat EmptyString l = EmptyString <-> l = [].
Proof.
  intros H. destruct l as [|x l]; [split; reflexivity|].
  inversion H as [|? ? Hx _]; subst.
  split; [|discriminate]. intros E. exfalso.
  destruct x as [|a x]; [now elim Hx|].
  destruct l; discriminate E.
Qed.

Lemma trim_empty (s : string) : JS.trim s = EmptyString <-> allSpaces s.
Proof.
  rewrite allSpaces_spec. unfold JS.trim.
  rewrite concat_empty.
  - pose proof (dropSpaces_head (JS.codePoints s)) as Hhead.
    rewrite <- dropSpaces_nil.
    destruct (JS.dropSpaces (JS.codePoints s)) as [|c r]; [tauto|].
    specialize (Hhead c r eq_refl).
    split; [|discriminate]. intros H. exfalso.
    apply (f_equal (@rev string)) in H.
    rewrite rev_involutive in H. change (rev []) with (@nil string) in H.
    apply (proj1 (dropSpaces_nil _)) in H.
    apply (proj1 (forallb_rev _ _)) in H. cbn [forallb] in H.
    rewrite Hhead in H. discriminate.
  - apply Forall_forall. intros c Hc.
    apply in_rev, dropSpaces_incl, in_rev, dropSpaces_incl in Hc.
    revert c Hc. apply Forall_forall, codePoints_nonempty.
Qed.

Lemma truthy_false (s : string) : JS.truthy s = false <-> s = EmptyString.
Proof. destruct s; simpl; split; congruence. Qed.

End TrimFacts.

(** X20.  [handleSendMessage] ignores a message exactly when a turn is in
    flight or the message is white space only (the empty message
    included): then, and only then, the state stays as it is; otherwise
    the message and a loading message are appended and a call to the
    interpreter is outstanding.  White space is what
    [String.prototype.trim] takes it to be: the characters U+0009 to
    U+000D, the space, the no-break space U+00A0, U+1680, U+2000 to
    U+200A, the separators U+2028 and U+2029, U+202F, U+205F, U+3000 and
    the byte order mark U+FEFF, each of which alone is a message that is
    ignored; and no other character, so that a message of the next line
    character U+0085, of the zero width space U+200B or of U+180E starts
    a turn, as does a text that has white space around a word. *)
Theorem send_is_ignored_exactly_when_processing_or_blank :
  forall st messageText now,
    (handleSendMessage st messageText now = st
     <-> isProcessing st = true \/ allSpaces messageText)
    /\ (isProcessing st = false -> ~ allSpaces messageText ->
        handleSendMessage st messageText now
        = mkApp (containers st)
            (messages st
             ++ [userMessage messageText now;
                 Message.mk (JS.numToString (now + 1)) ai "..." true])
            true (isCameraOpen st) (pendingScannedItems st)
            (outstanding st
             ++ [Interpreting (containers st) (pendingScannedItems st)]))
    /\ Forall (fun n => handleSendMessage st (JS.utf8 n) now = st)
         [ 0x09; 0x0A; 0x0B; 0x0C; 0x0D; 0x20; 0xA0; 0x1680;
           0x2000; 0x2001; 0x2002; 0x2003; 0x2004; 0x2005; 0x2006; 0x2007;
           0x2008; 0x2009; 0x200A; 0x2028; 0x2029; 0x202F; 0x205F; 0x3000;
           0xFEFF ]%N
    /\ handleSendMessage st
         (JS.utf8 0xA0 ++ JS.newline ++ JS.utf8 0x2003 ++ " "
          ++ JS.utf8 0xFEFF) now
       = st
    /\ Forall (fun n => ~ allSpaces (JS.utf8 n))
         [ 0x00; 0x08; 0x0E; 0x1F; 0x21; 0x41; 0x7F; 0x85; 0x9F; 0xA1; 0xE9;
           0x167F; 0x180E; 0x1FFF; 0x200B; 0x200C; 0x200D; 0x2027; 0x202A;
           0x202E; 0x2030; 0x2060; 0x2FFF; 0x3001; 0xFEFE; 0xFFFE;
           0x1F600 ]%N
    /\ ~ allSpaces (JS.utf8 0xA0 ++ "add a tent to container 1" ++ JS.newline)
    /\ JS.trim (JS.utf8 0xA0 ++ "add a tent to container 1" ++ JS.newline)
       = "add a tent to container 1".
Proof.
  intros st messageText now.
  assert (forall text, negb (JS.truthy (JS.trim text)) = true
                       <-> allSpaces text) as Hblank.
  { intros text. rewrite negb_true_iff, truthy_false. apply trim_empty. }
  assert (forall text, allSpaces text ->
                       handleSendMessage st text now = st) as Hignored.
  { intros text H. apply Hblank in H. unfold handleSendMessage.
    now rewrite H. }
  split; [|split; [|split; [|split; [|split; [|split]]]]].
  - unfold handleSendMessage.
    destruct (negb (JS.truthy (JS.trim messageText))) eqn:Eb;
      destruct (isProcessing st) eqn:Ep; cbn [orb].
    + split; [intros _; now left | reflexivity].
    + split; [intros _; right; now apply Hblank | reflexivity].
    + split; [intros _; now left | reflexivity].
    + split.
      * intros H. apply (f_equal messages) in H. cbn [messages] in H.
        apply (f_equal (@List.length Message.t)) in H.
        rewrite length_app in H. simpl in H. lia.
      * intros [H|H]; [discriminate|]. apply Hblank in H. congruence.
  - intros Hidle Hns. unfold handleSendMessage. rewrite Hidle.
    destruct (negb (JS.truthy (JS.trim messageText))) eqn:Eb;
      [elim Hns; now apply Hblank | reflexivity].
  - repeat constructor; apply Hignored, allSpaces_spec; reflexivity.
  - apply Hignored, allSpaces_spec. reflexivity.
  - repeat constructor; rewrite allSpaces_spec; discriminate.
  - rewrite allSpaces_spec. discriminate.
  - reflexivity.
Qed.

(** X21.  The system instruction agrees with the executor.  The highest
    id it names is 0 for the empty store and otherwise the largest id of
    the store, so it is always one less than the id that
    CREATE_CONTAINER assigns; and it names every container of the store
    by its id, or None when there is no container. *)
Theorem system_instruction_agrees_with_the_executor :
  (forall store, highestContainerId store + 1 = newContainerId store)
  /\ highestContainerId [] = 0
  /\ (forall store i,
         In i (ids store) ->
         i <= highestContainerId store
         /\ In (highestContainerId store) (ids store))
  /\ availableContainers [] = "None"
  /\ (forall store c,
         In c store ->
         occursIn ("Container #" ++ JS.numToString (Container.id c))
                  (availableContainers store)).
Proof.
  split; [|split; [reflexivity|split; [|split; [reflexivity|]]]].
  - intros store. unfold highestContainerId, newContainerId.
    now destruct (map Container.id store).
  - intros store i Hin. unfold highestContainerId, ids in *.
    destruct (map Container.id store) as [|x xs]; [destruct Hin|].
    split; [now apply Math_max_upper | apply Math_max_In].
  - intros store c Hin. unfold availableContainers.
    destruct store as [|c0 store]; [destruct Hin|].
    apply occursIn_join.
    now apply (in_map (fun c => "Container #" ++ JS.numToString (Container.id c))).
Qed.

(** X22.  The camera flow from end to end.  A scan that found items
    leaves the store alone and sets the pending scan; the next message,
    answered by a well-typed UPDATE_ITEMS, is what changes the store, to
    the store that this action leaves; afterwards the pending scan is
    cleared, the component is idle, and the transcript has gained the
    answer to the scan, the user's message and the answer to it. *)
Theorem camera_flow_changes_the_store_only_with_the_answer :
  forall st containerId now0 item items now1 messageText now2 n add rem now3,
    Reachable st -> captureEnabled st = true ->
    JS.truthy (JS.trim messageText) = true ->
    exists scanned scanReply,
      run st [Capture containerId now0;
              ScanSettles 0 (item :: items) now1] = Some scanned
      /\ containers scanned = containers st
      /\ pendingScannedItems scanned
         = Some (PendingScan.mk containerId (item :: items))
      /\ messages scanned = (messages st ++ [scanReply])%list
      /\ run scanned
           [Submit messageText now2;
            InterpretSettles 0 (Parsed (toJSON (UPDATE_ITEMS n add rem))) now3]
         = Some (mkApp
                   (fst (execute (containers st) (UPDATE_ITEMS n add rem)))
                   (messages st
                    ++ [scanReply; userMessage messageText now2;
                        aiMessage
                          (snd (execute (containers st)
                                  (UPDATE_ITEMS n add rem))) now3])
                   false false None []).
Proof.
  intros st containerId now0 item items now1 messageText now2 n add rem now3
    Hr Hen Htext.
  destruct (camera_scan_run st containerId now0 (item :: items) now1 Hr Hen)
    as (scanned & scanReply & Hrun & Hcs & Hcam & Hidle & _ & Hms & _ & _ & Hp).
  exists scanned, scanReply. repeat split; trivial.
  assert (Reachable scanned) as Hr' by (eapply run_reachable; eauto).
  cbn [run].
  change (step scanned (Submit messageText now2))
    with (Some (handleSendMessage scanned messageText now2)).
  cbv iota.
  rewrite (turn_with_typed_action scanned messageText now2
             (UPDATE_ITEMS n add rem) now3 Hr' Hidle Htext).
  rewrite Hcs, Hms, Hcam, <- app_assoc. reflexivity.
Qed.

(** X23.  An action that needs a container number and has none, or has
    the number 0, changes nothing.  UPDATE_ITEMS and DELETE_CONTAINER ask
    for the container; LIST_ITEMS and CLEAR_CONTAINER have no text of
    their own for this and answer with the fallback text. *)
Theorem action_without_a_container_number_changes_nothing :
  forall store a,
    truthyNumber (AIAction.containerNumber a) = None ->
    (AIAction.action a = ActionType.UPDATE_ITEMS ->
     execute store a = (store, "Please specify which container to update."))
    /\ (AIAction.action a = ActionType.DELETE_CONTAINER ->
        execute store a
        = (store, "Please specify which container you'd like to delete."))
    /\ (AIAction.action a = ActionType.LIST_ITEMS ->
        execute store a = (store, couldNotPerform))
    /\ (AIAction.action a = ActionType.CLEAR_CONTAINER ->
        execute store a = (store, couldNotPerform)).
Proof.
  intros store [name n its add rem] Hn. cbn in Hn.
  repeat split; cbn [AIAction.action]; intros ->;
    unfold execute, applyEffect, executeAction;
    cbn [AIAction.action AIAction.containerNumber]; cbv iota;
    now rewrite Hn.
Qed.

End WithRuntime.

(* ================================================================== *)
(** * Closed instances                                                 *)
(* ================================================================== *)

(** The runs below are on texts whose letters are those of ASCII and of
    Latin-1, which the engine lowers as [latin1Runtime] does. *)
#[global] Existing Instance latin1Runtime.

(** C1 does not hold as stated: a reply that is valid JSON and
    names an action outside the enum is returned by interpretUserCommand
    as it is, not as the UNKNOWN action, and executing it answers with
    the fallback text, not with the text of UNKNOWN. *)
Lemma unknown_action_name_is_not_turned_into_UNKNOWN :
  let reply := Parsed (JObject [("action", JString "MOVE_ITEMS");
                                ("containerNumber", JNumber 1)]) in
  isKnownAction "MOVE_ITEMS" = false
  /\ interpretUserCommand reply <> unknownAction
  /\ executeParsed seedContainers (interpretUserCommand reply)
     = Returns (None, "Sorry, I couldn't perform that action.")
  /\ "Sorry, I couldn't perform that action." <> didNotUnderstand.
Proof. cbv zeta. repeat split; try reflexivity; discriminate. Qed.

Lemma interpretation_failure_yields_UNKNOWN_and_replies_are_unchecked_witness :
  executeParsed seedContainers
    (interpretUserCommand (Parsed (JObject [("action", JString "MOVE_ITEMS")])))
  = Returns (None, couldNotPerform).
Proof.
  apply (proj1 (proj2 (proj2
           interpretation_failure_yields_UNKNOWN_and_replies_are_unchecked))).
  - discriminate.
  - intros name H. simpl in H. injection H as <-. reflexivity.
Defined.

Lemma create_assigns_next_id_and_ids_stay_unique_witness :
  NoDup (ids (executeAll seedContainers
                [CREATE_CONTAINER (Some ["Skis"]); DELETE_CONTAINER 1;
                 CREATE_CONTAINER None; DELETE_CONTAINER 7])).
Proof.
  apply (proj1 (proj2 create_assigns_next_id_and_ids_stay_unique)).
  repeat constructor; simpl; intuition discriminate.
Defined.

Lemma update_removes_exactly_the_matching_items_witness :
  (exists (keep : string -> bool) (newItems : list string),
      (forall item, keep item = false <-> removedBy ["tent"] item)
      /\ nth_error (fst (execute seedContainers
                           (UPDATE_ITEMS 2 (Some ["Skis"]) (Some ["tent"])))) 1
         = Some (Container.mk 2 newItems)
      /\ newItems
         = JS.newSet
             (filter keep ["Camping Gear"; "Tent"; "Sleeping Bags"]
              ++ ["Skis"])
      /\ (forall item,
             In item newItems
             <-> (In item ["Camping Gear"; "Tent"; "Sleeping Bags"]
                  /\ ~ removedBy ["tent"] item)
                 \/ In item ["Skis"]))
  /\ removedBy [JS.utf8 0xE9 ++ "charpe"] (JS.utf8 0xC9 ++ "charpe")
  /\ execute [Container.mk 1 [JS.utf8 0xC9 ++ "charpe"; "Skis"]]
       (UPDATE_ITEMS 1 None (Some [JS.utf8 0xE9 ++ "charpe"]))
     = ([Container.mk 1 ["Skis"]],
        "OK, I've removed " ++ JS.dquote ++ JS.utf8 0xE9 ++ "charpe"
        ++ JS.dquote ++ " from container 1.").
Proof.
  pose proof update_removes_exactly_the_matching_items
    as (Hupdate & _ & _ & Hsame & _).
  split; [|split].
  - apply (Hupdate seedContainers 2 (Some ["Skis"]) (Some ["tent"]) 1%nat
             (Container.mk 2 ["Camping Gear"; "Tent"; "Sleeping Bags"]));
      [lia | reflexivity | reflexivity].
  - apply (Hsame (JS.utf8 0xE9 ++ "charpe") (JS.utf8 0xC9 ++ "charpe")).
    reflexivity.
  - reflexivity.
Defined.

(** C4 does not hold as stated: a container made by
    CREATE_CONTAINER with the items A, A holds A twice, and adding A to
    it leaves one A. *)
Lemma adding_a_present_item_can_change_the_list :
  let store := fst (execute seedContainers (CREATE_CONTAINER (Some ["A"; "A"]))) in
  nth_error store 2 = Some (Container.mk 3 ["A"; "A"])
  /\ In "A" ["A"; "A"]
  /\ nth_error (fst (execute store (UPDATE_ITEMS 3 (Some ["A"]) (Some [])))) 2
     = Some (Container.mk 3 ["A"])
  /\ fst (execute store (UPDATE_ITEMS 3 (Some ["A"]) (Some []))) <> store.
Proof.
  cbv zeta. repeat split; try reflexivity.
  - now left.
  - intros H. apply (f_equal (fun s => nth_error s 2)) in H.
    vm_compute in H. discriminate.
Qed.

Lemma adding_present_items_changes_nothing_witness :
  nth_error (fst (execute seedContainers
                    (UPDATE_ITEMS 2 (Some ["Tent"; "Camping Gear"]) None))) 1
  = Some (Container.mk 2 ["Camping Gear"; "Tent"; "Sleeping Bags"]).
Proof.
  apply (proj1 adding_present_items_changes_nothing
           seedContainers 2 ["Tent"; "Camping Gear"] None 1%nat
           (Container.mk 2 ["Camping Gear"; "Tent"; "Sleeping Bags"]));
    try reflexivity; try lia.
  - repeat constructor; simpl; intuition discriminate.
  - simpl. intros item [<-|[<-|[]]]; tauto.
Defined.

(** C5 does not hold as stated: a reply that gives the text ab
    where the list of items to add is declared makes executeAction raise
    after it has handed its update to the store.  The turn ends with the
    error message, and with the store changed. *)
Lemma exception_after_the_store_update_is_not_rolled_back :
  let reply :=
    Parsed (JObject [("action", JString "UPDATE_ITEMS");
                     ("containerNumber", JNumber 1);
                     ("itemsToAdd", JString "ab")]) in
  let before := initialState in
  let inFlight := handleSendMessage before "add ab to container 1" 1000 in
  (exists queued,
      executeParsed (containers before) (interpretUserCommand reply)
      = Throws queued)
  /\ exists after,
      step inFlight (InterpretSettles 0 reply 2000) = Some after
      /\ messages after
         = [welcomeMessage; userMessage "add ab to container 1" 1000;
            errorMessage 2000]
      /\ containers after
         = [ Container.mk 1 ["Christmas Decorations"; "Wreaths"; "Tree Stand";
                             "a"; "b"];
             Container.mk 2 ["Camping Gear"; "Tent"; "Sleeping Bags"] ]
      /\ containers after <> containers before.
Proof.
  cbv zeta. split.
  - eexists. reflexivity.
  - eexists. split; [reflexivity|]. split; [reflexivity|].
    split; [reflexivity|]. discriminate.
Qed.

Lemma exception_in_a_turn_clears_the_scan_and_reports_an_error_witness :
  (exists st',
      step (handleSendMessage initialState "hello" 1000)
           (InterpretSettles 0 (Parsed JNull) 2000) = Some st'
      /\ pendingScannedItems st' = None
      /\ messages st'
         = (messages initialState
            ++ [userMessage "hello" 1000; errorMessage 2000])%list
      /\ isProcessing st' = false
      /\ containers st' = containers initialState)
  /\ settle (handleSendMessage initialState "add ab to container 1" 1000) 0
       (Parsed (JObject [("action", JString "UPDATE_ITEMS");
                         ("containerNumber", JNumber 1);
                         ("itemsToAdd", JString "ab")])) 2000
     = Some (Rendered
               (mkApp
                  [ Container.mk 1 ["Christmas Decorations"; "Wreaths";
                                    "Tree Stand"; "a"; "b"];
                    Container.mk 2 ["Camping Gear"; "Tent";
                                    "Sleeping Bags"] ]
                  [welcomeMessage; userMessage "add ab to container 1" 1000;
                   errorMessage 2000]
                  false false None []))
  /\ settle (handleSendMessage initialState "remove ab from container 1" 1000)
       0
       (Parsed (JObject [("action", JString "UPDATE_ITEMS");
                         ("containerNumber", JNumber 1);
                         ("itemsToRemove", JString "ab")])) 2000
     = Some RenderRaises
  /\ settle (handleSendMessage initialState "a container for abc" 1000) 0
       (Parsed (JObject [("action", JString "CREATE_CONTAINER");
                         ("items", JString "abc")])) 2000
     = Some RenderRaises.
Proof.
  pose proof exception_in_a_turn_clears_the_scan_and_reports_an_error
    as (Hraised & Hreply & _ & _ & _ & Hnull & Hremove & Hcreate).
  split; [|split; [|split]].
  - apply (Hnull initialState "hello" 1000 2000);
      [apply Reachable_initial | reflexivity | reflexivity].
  - rewrite (Hreply initialState "add ab to container 1" 1000 _ 2000
               (Some (total (updateItemsIn 1 (Some ["a"; "b"]) None))));
      [|reflexivity|reflexivity|reflexivity|reflexivity].
    rewrite (Hraised initialState "add ab to container 1" 1000 2000);
      reflexivity.
  - apply (Hremove initialState "remove ab from container 1" 1000 2000 1 "ab"
             (Container.mk 1 ["Christmas Decorations"; "Wreaths";
                              "Tree Stand"]));
      [reflexivity | reflexivity | reflexivity | lia
      | discriminate | reflexivity | discriminate].
  - apply (Hcreate initialState "a container for abc" 1000 2000 "abc");
      [reflexivity | reflexivity | reflexivity | discriminate].
Defined.

Lemma pending_scan_is_cleared_by_the_next_turn_witness :
  exists scanned,
    run initialState
      [OpenCamera; Capture 2 1000; ScanSettles 0 ["Remote"; "Box"] 2000]
    = Some scanned
    /\ pendingScannedItems scanned = Some (PendingScan.mk 2 ["Remote"; "Box"])
    /\ forall reply st',
        step (handleSendMessage scanned "only the remote please" 3000)
             (InterpretSettles 0 reply 4000) = Some st' ->
        pendingScannedItems st' = None /\ isProcessing st' = false.
Proof.
  eexists. split; [reflexivity|]. split; [reflexivity|].
  apply (pending_scan_is_cleared_by_the_next_turn
           _ (PendingScan.mk 2 ["Remote"; "Box"]) "only the remote please"
           3000 4000).
  - apply (run_reachable
             [OpenCamera; Capture 2 1000; ScanSettles 0 ["Remote"; "Box"] 2000]
             initialState); [apply Reachable_initial | reflexivity].
  - reflexivity.
  - reflexivity.
  - reflexivity.
Defined.

Lemma send_while_processing_is_ignored_and_turns_never_overlap_witness :
  let inFlight := handleSendMessage initialState "what is in container 1" 1000 in
  isProcessing inFlight = true
  /\ handleSendMessage inFlight "and in container 2" 1001 = inFlight.
Proof.
  cbv zeta. split; [reflexivity|].
  apply (proj1 send_while_processing_is_ignored_and_turns_never_overlap).
  reflexivity.
Defined.

Lemma create_then_list_items_reports_the_item_witness :
  execute (fst (execute seedContainers (CREATE_CONTAINER (Some ["X"]))))
    (LIST_ITEMS 3)
  = (seedContainers ++ [Container.mk 3 ["X"]], "Container 3 contains: X.")%list.
Proof.
  apply (create_then_list_items_reports_the_item seedContainers "X").
  repeat constructor.
Defined.

(** C10 does not hold as stated at the container number 0, which
    no container has: the guard of CLEAR_CONTAINER takes 0 for no number
    at all and the fallback text is returned. *)
Lemma clear_of_container_zero_is_not_confirmed :
  ~ In 0 (ids seedContainers)
  /\ execute seedContainers (CLEAR_CONTAINER 0)
     = (seedContainers, "Sorry, I couldn't perform that action.")
  /\ snd (execute seedContainers (CLEAR_CONTAINER 0))
     <> "Container 0 has been cleared.".
Proof.
  split; [|split].
  - simpl. intuition discriminate.
  - reflexivity.
  - discriminate.
Qed.

Lemma clear_of_a_missing_container_is_confirmed_witness :
  execute seedContainers (CLEAR_CONTAINER 7)
  = (seedContainers, "Container 7 has been cleared.").
Proof.
  apply (clear_of_a_missing_container_is_confirmed seedContainers 7);
    [lia | simpl; intuition discriminate].
Defined.

Lemma delete_takes_out_exactly_the_named_container_witness :
  exists before c after,
    seedContainers = (before ++ c :: after)%list /\ Container.id c = 1
    /\ fst (execute seedContainers (DELETE_CONTAINER 1))
       = (before ++ after)%list.
Proof.
  apply (delete_takes_out_exactly_the_named_container seedContainers 1).
  - lia.
  - repeat constructor; simpl; intuition discriminate.
  - simpl. now left.
Defined.

Lemma clear_empties_the_container_and_list_items_says_so_witness :
  execute (fst (execute seedContainers (CLEAR_CONTAINER 2))) (LIST_ITEMS 2)
  = (fst (execute seedContainers (CLEAR_CONTAINER 2)),
     "Container 2 contains: It's empty.").
Proof.
  apply (clear_empties_the_container_and_list_items_says_so seedContainers 2).
  - lia.
  - simpl. tauto.
Defined.

Lemma list_items_after_update_reports_the_updated_list_witness :
  execute (fst (execute seedContainers
                  (UPDATE_ITEMS 2 (Some ["Skis"]) (Some ["tent"]))))
    (LIST_ITEMS 2)
  = (fst (execute seedContainers
            (UPDATE_ITEMS 2 (Some ["Skis"]) (Some ["tent"]))),
     "Container 2 contains: Camping Gear, Sleeping Bags, Skis.").
Proof.
  refine (proj2 (list_items_after_update_reports_the_updated_list
                   seedContainers 2 (Some ["Skis"]) (Some ["tent"])
                   (Container.mk 2 ["Camping Gear"; "Tent"; "Sleeping Bags"])
                   _ _)).
  - lia.
  - reflexivity.
Defined.

Lemma create_then_delete_restores_the_store_witness :
  execute (fst (execute seedContainers (CREATE_CONTAINER (Some ["Skis"]))))
    (DELETE_CONTAINER 3)
  = (seedContainers, "OK, I have deleted container #3.").
Proof.
  apply (create_then_delete_restores_the_store seedContainers (Some ["Skis"])).
  repeat constructor.
Defined.

Lemma id_of_the_deleted_highest_container_can_come_back_witness :
  newContainerId (fst (execute seedContainers (DELETE_CONTAINER 2))) <= 2.
Proof.
  apply (id_of_the_deleted_highest_container_can_come_back seedContainers 2).
  - repeat constructor.
  - simpl. tauto.
  - simpl. intros i [<-|[<-|[]]]; lia.
Defined.

Lemma empty_removal_term_removes_every_item_witness :
  fst (execute seedContainers (UPDATE_ITEMS 1 None (Some ["Wreaths"; EmptyString])))
  = fst (execute seedContainers (CLEAR_CONTAINER 1)).
Proof.
  apply (empty_removal_term_removes_every_item seedContainers 1
           ["Wreaths"; EmptyString]).
  - lia.
  - simpl. tauto.
  - simpl. tauto.
Defined.

Lemma removal_ignores_the_case_of_the_terms_witness :
  fst (execute seedContainers (UPDATE_ITEMS 2 None (Some ["TENT"])))
  = fst (execute seedContainers (UPDATE_ITEMS 2 None (Some ["tent"]))).
Proof.
  apply (proj1 removal_ignores_the_case_of_the_terms).
  repeat constructor.
Defined.

Lemma adding_new_items_appends_them_in_order_witness :
  nth_error (fst (execute seedContainers
                    (UPDATE_ITEMS 2 (Some ["tent"; "Skis"]) None))) 1
  = Some (Container.mk 2
            ["Camping Gear"; "Tent"; "Sleeping Bags"; "tent"; "Skis"]).
Proof.
  apply (adding_new_items_appends_them_in_order seedContainers 2
           ["tent"; "Skis"] None 1%nat
           (Container.mk 2 ["Camping Gear"; "Tent"; "Sleeping Bags"]));
    try reflexivity; try lia.
  repeat constructor; simpl; intuition discriminate.
Defined.

Lemma repeating_an_update_changes_nothing_witness :
  fst (execute (fst (execute seedContainers
                       (UPDATE_ITEMS 2 (Some ["Skis"]) (Some ["tent"]))))
         (UPDATE_ITEMS 2 (Some ["Skis"]) (Some ["tent"])))
  = fst (execute seedContainers (UPDATE_ITEMS 2 (Some ["Skis"]) (Some ["tent"]))).
Proof.
  apply (repeating_an_update_changes_nothing seedContainers 2
           (Some ["Skis"]) (Some ["tent"])).
  intros item [<-|[]] [term [[<-|[]] H]].
  apply includes_spec in H. discriminate H.
Defined.

Lemma removal_is_confirmed_even_when_nothing_was_hit_witness :
  execute seedContainers (UPDATE_ITEMS 1 None (Some ["z"]))
  = (seedContainers,
     "OK, I've removed " ++ JS.dquote ++ "z" ++ JS.dquote
     ++ " from container 1.").
Proof.
  apply (removal_is_confirmed_even_when_nothing_was_hit seedContainers 1 ["z"]).
  - lia.
  - simpl. tauto.
  - discriminate.
  - intros c item [<-|[<-|[]]] Hid Hitem [term [[<-|[]] H]];
      try discriminate Hid.
    apply includes_spec in H.
    destruct Hitem as [<-|[<-|[<-|[]]]]; discriminate H.
Defined.

Lemma actions_leave_the_other_containers_alone_witness :
  In (Container.mk 1 ["Christmas Decorations"; "Wreaths"; "Tree Stand"])
     (fst (execute seedContainers (DELETE_CONTAINER 2))).
Proof.
  apply (actions_leave_the_other_containers_alone seedContainers
           (DELETE_CONTAINER 2)).
  - simpl. tauto.
  - discriminate.
Defined.

Lemma only_four_actions_change_the_store_witness :
  AIAction.action (CLEAR_CONTAINER 1) = ActionType.CREATE_CONTAINER
  \/ exists n,
       AIAction.containerNumber (CLEAR_CONTAINER 1) = Some n /\ n <> 0
       /\ In n (ids seedContainers)
       /\ (AIAction.action (CLEAR_CONTAINER 1) = ActionType.UPDATE_ITEMS
           \/ AIAction.action (CLEAR_CONTAINER 1) = ActionType.CLEAR_CONTAINER
           \/ AIAction.action (CLEAR_CONTAINER 1)
              = ActionType.DELETE_CONTAINER).
Proof.
  apply (only_four_actions_change_the_store seedContainers (CLEAR_CONTAINER 1)).
  intros H. apply (f_equal (fun s => nth_error s 0)) in H.
  vm_compute in H. discriminate H.
Defined.

Lemma reachable_ids_are_positive_and_below_the_next_id_witness :
  1 <= 2 < newContainerId (containers initialState).
Proof.
  apply (reachable_ids_are_positive_and_below_the_next_id initialState 2).
  - apply Reachable_initial.
  - simpl. tauto.
Defined.

Lemma only_a_settled_interpretation_changes_the_store_witness :
  exists k reply now,
    InterpretSettles 0 (Parsed (toJSON (CLEAR_CONTAINER 1))) 2000
    = InterpretSettles k reply now.
Proof.
  apply (only_a_settled_interpretation_changes_the_store
           (handleSendMessage initialState "empty container 1" 1000)
           (InterpretSettles 0 (Parsed (toJSON (CLEAR_CONTAINER 1))) 2000)
           (mkApp (clearIn 1 seedContainers)
              [welcomeMessage; userMessage "empty container 1" 1000;
               aiMessage "Container 1 has been cleared." 2000]
              false false None [])).
  - reflexivity.
  - intros H. apply (f_equal (fun s => nth_error s 0)) in H.
    vm_compute in H. discriminate H.
Defined.

Lemma camera_scan_sets_the_pending_scan_only_when_items_were_found_witness :
  exists st' reply,
    run (setCameraOpen initialState true)
      [Capture 2 1000; ScanSettles 0 ["Remote"; "Box"] 2000] = Some st'
    /\ containers st' = containers (setCameraOpen initialState true)
    /\ isCameraOpen st' = false /\ isProcessing st' = false
    /\ outstanding st' = []
    /\ messages st'
       = (messages (setCameraOpen initialState true) ++ [reply])%list
    /\ Message.sender reply = ai /\ Message.isLoading reply = false
    /\ pendingScannedItems st' = Some (PendingScan.mk 2 ["Remote"; "Box"]).
Proof.
  apply (camera_scan_sets_the_pending_scan_only_when_items_were_found
           (setCameraOpen initialState true) 2 1000 ["Remote"; "Box"] 2000).
  - apply (Reachable_step initialState OpenCamera);
      [apply Reachable_initial | reflexivity].
  - reflexivity.
Defined.

Lemma image_analysis_fails_softly_witness :
  analyzeImageOfBinContents
    (Parsed (JObject [("items", JArray (map JString ["Remote"; "Box"]))]))
  = Some ["Remote"; "Box"].
Proof.
  apply (proj1 (proj2 (proj2 (proj2 (proj2 image_analysis_fails_softly))))).
  reflexivity.
Defined.

Lemma loading_message_is_last_and_only_while_processing_witness :
  exists prev m,
    messages (handleSendMessage initialState "hello" 1000)
    = (prev ++ [m])%list
    /\ Message.isLoading m = true
    /\ forall m', In m' prev -> Message.isLoading m' = false.
Proof.
  apply (loading_message_is_last_and_only_while_processing
           (handleSendMessage initialState "hello" 1000)).
  - apply (Reachable_step initialState (Submit "hello" 1000));
      [apply Reachable_initial | reflexivity].
  - reflexivity.
Defined.

Lemma settled_transcript_is_append_only_witness :
  exists new,
    settledMessages
      (messages (mkApp seedContainers
                   [welcomeMessage; userMessage "hello" 1000;
                    aiMessage didNotUnderstand 2000]
                   false false None []))
    = (settledMessages (messages (handleSendMessage initialState "hello" 1000))
       ++ new)%list.
Proof.
  apply (settled_transcript_is_append_only
           (handleSendMessage initialState "hello" 1000)
           (InterpretSettles 0 Failed 2000)).
  - apply (Reachable_step initialState (Submit "hello" 1000));
      [apply Reachable_initial | reflexivity].
  - reflexivity.
Defined.

Lemma turn_with_a_typed_reply_runs_the_action_witness :
  step (handleSendMessage initialState " empty container 1" 1000)
       (InterpretSettles 0 (Parsed (toJSON (CLEAR_CONTAINER 1))) 2000)
  = Some (mkApp (fst (execute seedContainers (CLEAR_CONTAINER 1)))
            [welcomeMessage; userMessage " empty container 1" 1000;
             aiMessage "Container 1 has been cleared." 2000]
            false false None []).
Proof.
  apply (proj1 turn_with_a_typed_reply_runs_the_action initialState
           " empty container 1" 1000 (CLEAR_CONTAINER 1) 2000).
  - apply Reachable_initial.
  - reflexivity.
  - reflexivity.
Defined.

Lemma send_is_ignored_exactly_when_processing_or_blank_witness :
  handleSendMessage initialState
    (JS.utf8 0xA0 ++ "what is in container 1" ++ JS.utf8 0x3000) 1000
  = mkApp seedContainers
      [welcomeMessage;
       userMessage (JS.utf8 0xA0 ++ "what is in container 1" ++ JS.utf8 0x3000)
         1000;
       Message.mk (JS.numToString 1001) ai "..." true]
      true false None [Interpreting seedContainers None].
Proof.
  apply (proj1 (proj2 (send_is_ignored_exactly_when_processing_or_blank
                         initialState
                         (JS.utf8 0xA0 ++ "what is in container 1"
                          ++ JS.utf8 0x3000) 1000))).
  - reflexivity.
  - intros H. apply allSpaces_spec in H. discriminate H.
Defined.

Lemma system_instruction_agrees_with_the_executor_witness :
  2 <= highestContainerId seedContainers
  /\ In (highestContainerId seedContainers) (ids seedContainers).
Proof.
  apply (proj1 (proj2 (proj2 system_instruction_agrees_with_the_executor))
           seedContainers 2).
  simpl. tauto.
Defined.

Lemma camera_flow_changes_the_store_only_with_the_answer_witness :
  exists scanned scanReply,
    run (setCameraOpen initialState true)
      [Capture 2 1000; ScanSettles 0 ["Remote"; "Box"] 2000] = Some scanned
    /\ containers scanned = containers (setCameraOpen initialState true)
    /\ pendingScannedItems scanned
       = Some (PendingScan.mk 2 ["Remote"; "Box"])
    /\ messages scanned
       = (messages (setCameraOpen initialState true) ++ [scanReply])%list
    /\ run scanned
         [Submit "only the remote" 3000;
          InterpretSettles 0
            (Parsed (toJSON (UPDATE_ITEMS 2 (Some ["Remote"]) None))) 4000]
       = Some (mkApp
                 (fst (execute (containers (setCameraOpen initialState true))
                         (UPDATE_ITEMS 2 (Some ["Remote"]) None)))
                 (messages (setCameraOpen initialState true)
                  ++ [scanReply; userMessage "only the remote" 3000;
                      aiMessage
                        (snd (execute
                                (containers (setCameraOpen initialState true))
                                (UPDATE_ITEMS 2 (Some ["Remote"]) None)))
                        4000])
                 false false None []).
Proof.
  apply (camera_flow_changes_the_store_only_with_the_answer
           (setCameraOpen initialState true) 2 1000 "Remote" ["Box"] 2000
           "only the remote" 3000 2 (Some ["Remote"]) None 4000).
  - apply (Reachable_step initialState OpenCamera);
      [apply Reachable_initial | reflexivity].
  - reflexivity.
  - reflexivity.
Defined.

Lemma action_without_a_container_number_changes_nothing_witness :
  execute seedContainers (DELETE_CONTAINER 0)
  = (seedContainers, "Please specify which container you'd like to delete.").
Proof.
  apply (proj1 (proj2 (action_without_a_container_number_changes_nothing
                         seedContainers (DELETE_CONTAINER 0) eq_refl))).
  reflexivity.
Defined.
